(** * A shallow embedding of the caret, index and edit machinery of
    gio's [widget.Editor] (widget/editor.go).

    Modelling conventions:
    - Go [int] and [fixed.Int26_6] values are [Z]; the pixel quantities of a
      text field stay far inside the 32-bit range, so no wrap-around occurs and
      none is written.
    - The edit buffer ([editBuffer], widget/buffer.go) is not part of the
      sources; it is modelled from the spec as a sequence of code points,
      each taking its UTF-8 length in storage bytes.
    - Go slices indexed by line or column are read with [nth] and a default;
      the source only indexes them inside their bounds. *)

From Stdlib Require Import ZArith List Bool Lia.
Import ListNotations.
Open Scope Z_scope.

(* ------------------------------------------------------------------ *)
(** ** UTF-8 (Go's unicode/utf8) *)

Definition RuneError : Z := 65533.

(** [utf8.RuneLen] as used by [utf8.EncodeRune]: invalid runes are
    encoded as [RuneError] (3 bytes). *)
Definition rune_len (r : Z) : Z :=
  if r <? 0 then 3
  else if r <=? 127 then 1
  else if r <=? 2047 then 2
  else if (55296 <=? r) && (r <=? 57343) then 3
  else if r <=? 65535 then 3
  else if r <=? 1114111 then 4
  else 3.

(** [utf8.EncodeRune]. *)
Definition encode_rune (r : Z) : list Z :=
  let r := if (r <? 0) || ((55296 <=? r) && (r <=? 57343)) || (1114111 <? r)
           then RuneError else r in
  if r <=? 127 then [r]
  else if r <=? 2047 then
    [192 + Z.shiftr r 6; 128 + Z.land r 63]
  else if r <=? 65535 then
    [224 + Z.shiftr r 12; 128 + Z.land (Z.shiftr r 6) 63; 128 + Z.land r 63]
  else
    [240 + Z.shiftr r 18; 128 + Z.land (Z.shiftr r 12) 63;
     128 + Z.land (Z.shiftr r 6) 63; 128 + Z.land r 63].

Definition is_cont (b : Z) : bool := (128 <=? b) && (b <=? 191).

(** [utf8.DecodeRune]: the first rune of a byte slice and its width;
    [(RuneError, 0)] on an empty slice, [(RuneError, 1)] on a malformed
    sequence. *)
Definition decode_rune (bs : list Z) : Z * Z :=
  match bs with
  | [] => (RuneError, 0)
  | b0 :: rest =>
    if b0 <? 128 then (b0, 1)
    else if (194 <=? b0) && (b0 <=? 223) then
      match rest with
      | b1 :: _ => if is_cont b1
                   then (Z.lor (Z.shiftl (Z.land b0 31) 6) (Z.land b1 63), 2)
                   else (RuneError, 1)
      | _ => (RuneError, 1)
      end
    else if (224 <=? b0) && (b0 <=? 239) then
      match rest with
      | b1 :: b2 :: _ =>
        let lo := if b0 =? 224 then 160 else 128 in
        let hi := if b0 =? 237 then 159 else 191 in
        if (lo <=? b1) && (b1 <=? hi) && is_cont b2
        then (Z.lor (Z.shiftl (Z.land b0 15) 12)
                (Z.lor (Z.shiftl (Z.land b1 63) 6) (Z.land b2 63)), 3)
        else (RuneError, 1)
      | _ => (RuneError, 1)
      end
    else if (240 <=? b0) && (b0 <=? 244) then
      match rest with
      | b1 :: b2 :: b3 :: _ =>
        let lo := if b0 =? 240 then 144 else 128 in
        let hi := if b0 =? 244 then 143 else 191 in
        if (lo <=? b1) && (b1 <=? hi) && is_cont b2 && is_cont b3
        then (Z.lor (Z.shiftl (Z.land b0 7) 18)
                (Z.lor (Z.shiftl (Z.land b1 63) 12)
                   (Z.lor (Z.shiftl (Z.land b2 63) 6) (Z.land b3 63))), 4)
        else (RuneError, 1)
      | _ => (RuneError, 1)
      end
    else (RuneError, 1)
  end.

(** Decoding a byte stream into runes, as [bufio.Reader.ReadRune] does
    until [io.EOF]; [fuel] bounds the number of runes read. *)
Fixpoint decode_all (fuel : nat) (bs : list Z) : list Z :=
  match fuel with
  | O => []
  | S fuel =>
    match bs with
    | [] => []
    | _ => let '(r, n) := decode_rune bs in
           r :: decode_all fuel (skipn (Z.to_nat n) bs)
    end
  end.

(** A Go string, as the runes it holds. *)
Definition encode_string (s : list Z) : list Z := flat_map encode_rune s.

Fixpoint bytes_len (s : list Z) : Z :=
  match s with
  | [] => 0
  | r :: t => rune_len r + bytes_len t
  end.

(* ------------------------------------------------------------------ *)
(** ** The edit buffer *)

(** Modelled from the spec: the code-point buffer of §4.1 ([editBuffer]
    of widget/buffer.go is not among the sources).  Storage is the
    sequence of code points; a storage offset counts the UTF-8 bytes of
    the code points before it. *)
Definition editBuffer := list Z.

(** Modelled from the spec: [codePointAt(storageOffset)]: the code point
    starting at the offset and its encoded size; the end of the content
    is signalled by size 0, an offset inside a code point decodes to a
    replacement code point of size 1. *)
Fixpoint runeAt (b : editBuffer) (ofs : Z) : Z * Z :=
  match b with
  | [] => (RuneError, 0)
  | r :: t =>
    if ofs <=? 0 then (if ofs =? 0 then (r, rune_len r) else (RuneError, 1))
    else runeAt t (ofs - rune_len r)
  end.

(** Modelled from the spec: [codePointBefore(storageOffset)], the
    symmetric decode backwards. *)
Fixpoint runeBefore_aux (prev : option Z) (b : editBuffer) (ofs : Z) : Z * Z :=
  match b with
  | [] => match prev with
          | Some p => if ofs =? 0 then (p, rune_len p) else (RuneError, 1)
          | None => (RuneError, 0)
          end
  | r :: t =>
    if ofs <=? 0 then
      match prev with
      | Some p => if ofs =? 0 then (p, rune_len p) else (RuneError, 1)
      | None => (RuneError, 0)
      end
    else runeBefore_aux (Some r) t (ofs - rune_len r)
  end.

Definition runeBefore (b : editBuffer) (ofs : Z) : Z * Z :=
  runeBefore_aux None b ofs.

(** Modelled from the spec: [length()], the storage length in bytes. *)
Definition buf_len (b : editBuffer) : Z := bytes_len b.

(** The code points before and after a storage offset. *)
Fixpoint split_at_ofs (b : editBuffer) (ofs : Z) : editBuffer * editBuffer :=
  match b with
  | [] => ([], [])
  | r :: t =>
    if ofs <=? 0 then ([], b)
    else let '(x, y) := split_at_ofs t (ofs - rune_len r) in (r :: x, y)
  end.

(** Modelled from the spec: [deleteRange(storageOffset, n)] deletes up to
    [n] code points after the offset ([n >= 0]) or up to [-n] before it. *)
Definition deleteRunes (b : editBuffer) (ofs n : Z) : editBuffer :=
  let '(x, y) := split_at_ofs b ofs in
  if 0 <=? n then x ++ skipn (Z.to_nat n) y
  else firstn (length x - Z.to_nat (- n)) x ++ y.

(** Modelled from the spec: [insert(storageOffset, text)]. *)
Definition prepend (b : editBuffer) (ofs : Z) (s : list Z) : editBuffer :=
  let '(x, y) := split_at_ofs b ofs in x ++ s ++ y.

(* ------------------------------------------------------------------ *)
(** ** Line layout, positions and the editor state *)

(** [fixed.Int26_6.Ceil] and [Floor]; [fixed.I]. *)
Definition Ceil (v : Z) : Z := Z.shiftr (v + 63) 6.
Definition Floor (v : Z) : Z := Z.shiftr v 6.
Definition fixedI (n : Z) : Z := Z.shiftl n 6.

(** [text.Line], with its [text.Layout] flattened in: one advance per
    column. *)
Record Line := mkLine {
  LText : list Z;
  Advances : list Z;
  Ascent : Z;
  Descent : Z;
  Width : Z
}.

Definition emptyLine : Line := mkLine [] [] 0 0 0.

(** [screenPos]: [X] is the column, [Y] the line. *)
Record screenPos := mkSP { X : Z; Y : Z }.

Definition screenPos_eqb (a b : screenPos) : bool :=
  (X a =? X b) && (Y a =? Y b).

(** [combinedPos]. *)
Record combinedPos := mkPos {
  ofs : Z;
  runes : Z;
  lineCol : screenPos;
  x : Z;
  y : Z
}.

Definition zeroPos : combinedPos := mkPos 0 0 (mkSP 0 0) 0 0.

Inductive Alignment := Start | End | Middle.

(** Modelled from the spec: the alignment offset of a line, the x of its
    first column ([align] of widget/label.go is not among the sources):
    zero for [Start], the free width for [End], half of it for [Middle]. *)
Definition align (a : Alignment) (width : Z) (maxWidth : Z) : Z :=
  let mw := fixedI maxWidth in
  match a with
  | Middle => fixedI (Floor (Z.quot (mw - width) 2))
  | End => fixedI (Floor (mw - width))
  | Start => 0
  end.

(** The fields of [Editor] the caret machinery reads or writes.  The
    shaper is [s.Layout(e.font, e.textSize, e.maxWidth, ·)] applied to the
    byte stream of [layoutText]; [None] is a nil shaper. *)
Record Editor := mkEditor {
  EAlignment : Alignment;
  SingleLine : bool;
  Mask : Z;
  rr : editBuffer;
  shaper : option (list Z -> list Line);
  viewW : Z;
  valid : bool;
  lines : list Line;
  index : list combinedPos;
  caret_start : combinedPos;
  caret_end : combinedPos;
  caret_xoff : Z
}.

Definition set_index (e : Editor) (i : list combinedPos) : Editor :=
  mkEditor (EAlignment e) (SingleLine e) (Mask e) (rr e) (shaper e) (viewW e)
    (valid e) (lines e) i (caret_start e) (caret_end e) (caret_xoff e).
Definition set_valid (e : Editor) (v : bool) : Editor :=
  mkEditor (EAlignment e) (SingleLine e) (Mask e) (rr e) (shaper e) (viewW e)
    v (lines e) (index e) (caret_start e) (caret_end e) (caret_xoff e).
Definition set_lines (e : Editor) (ls : list Line) : Editor :=
  mkEditor (EAlignment e) (SingleLine e) (Mask e) (rr e) (shaper e) (viewW e)
    (valid e) ls (index e) (caret_start e) (caret_end e) (caret_xoff e).
Definition set_rr (e : Editor) (b : editBuffer) : Editor :=
  mkEditor (EAlignment e) (SingleLine e) (Mask e) b (shaper e) (viewW e)
    (valid e) (lines e) (index e) (caret_start e) (caret_end e) (caret_xoff e).
Definition set_start (e : Editor) (p : combinedPos) : Editor :=
  mkEditor (EAlignment e) (SingleLine e) (Mask e) (rr e) (shaper e) (viewW e)
    (valid e) (lines e) (index e) p (caret_end e) (caret_xoff e).
Definition set_end (e : Editor) (p : combinedPos) : Editor :=
  mkEditor (EAlignment e) (SingleLine e) (Mask e) (rr e) (shaper e) (viewW e)
    (valid e) (lines e) (index e) (caret_start e) p (caret_xoff e).
Definition set_xoff (e : Editor) (v : Z) : Editor :=
  mkEditor (EAlignment e) (SingleLine e) (Mask e) (rr e) (shaper e) (viewW e)
    (valid e) (lines e) (index e) (caret_start e) (caret_end e) v.

(** A small state monad over the editor, for the methods that mutate it. *)
Definition M (A : Type) := Editor -> A * Editor.
Definition ret {A} (a : A) : M A := fun e => (a, e).
Definition bind {A B} (m : M A) (k : A -> M B) : M B :=
  fun e => let '(a, e') := m e in k a e'.
Definition get : M Editor := fun e => (e, e).
Definition modify (f : Editor -> Editor) : M unit := fun e => (tt, f e).

Notation "x <- c ;; k" := (bind c (fun x => k))
  (at level 61, c at next level, right associativity).
Notation "c ;;; k" := (bind c (fun _ => k))
  (at level 61, right associativity).

Definition nth_line (e : Editor) (i : Z) : Line := nth (Z.to_nat i) (lines e) emptyLine.
Definition nlines (e : Editor) : Z := Z.of_nat (length (lines e)).
Definition adv_at (l : Line) (i : Z) : Z := nth (Z.to_nat i) (Advances l) 0.
Definition alen (l : Line) : Z := Z.of_nat (length (Advances l)).

(* ------------------------------------------------------------------ *)
(** ** The comparator and the position index *)

(** [positionGreaterOrEqual]: whether [p1 >= p2] according to the
    non-zero fields of [p2]. *)
Definition positionGreaterOrEqual (e : Editor) (p1 p2 : combinedPos) : bool :=
  let l := nth_line e (Y (lineCol p1)) in
  let endCol := alen l - 1 in
  let endCol := if Y (lineCol p1) =? nlines e - 1 then endCol + 1 else endCol in
  let eol := X (lineCol p1) =? endCol in
  if negb (runes p2 =? 0) then runes p1 >=? runes p2
  else if negb (screenPos_eqb (lineCol p2) (mkSP 0 0)) then
    if negb (Y (lineCol p1) =? Y (lineCol p2)) then Y (lineCol p1) >? Y (lineCol p2)
    else eol || (X (lineCol p1) >=? X (lineCol p2))
  else if negb (x p2 =? 0) || negb (y p2 =? 0) then
    let ly := y p1 + Ceil (Descent l) in
    let prevy := y p1 - Ceil (Ascent l) in
    if (ly <? y p2) && (Y (lineCol p1) <? nlines e - 1) then false
    else if (prevy >=? y p2) && (Y (lineCol p1) >? 0) then true
    else if eol then true
    else let adv := adv_at l (X (lineCol p1)) in
         x p1 + adv - x p2 >=? x p2 - x p1
  else true.

(** [sort.Search(n, f)]: the loop runs while [i < j]; each round shrinks
    [j - i], so [n] rounds are enough. *)
Fixpoint search_loop (fuel : nat) (f : Z -> bool) (i j : Z) : Z :=
  match fuel with
  | O => i
  | S fuel =>
    if i <? j then
      let h := Z.shiftr (i + j) 1 in
      if negb (f h) then search_loop fuel f (h + 1) j
      else search_loop fuel f i h
    else i
  end.

Definition sort_Search (n : Z) (f : Z -> bool) : Z :=
  search_loop (Z.to_nat n) f 0 n.

(** The first caret position: column 0 of line 0. *)
Definition originPos (e : Editor) : combinedPos :=
  let l := nth_line e 0 in
  mkPos 0 0 (mkSP 0 0) (align (EAlignment e) (Width l) (viewW e)) (Ceil (Ascent l)).

(** [indexPosition]: the latest position from the index no later than
    [pos]. *)
Definition indexPosition (pos : combinedPos) : M combinedPos :=
  fun e =>
    let e := match index e with
             | [] => set_index e [originPos e]
             | _ => e
             end in
    let idx := index e in
    let i := sort_Search (Z.of_nat (length idx))
               (fun i => positionGreaterOrEqual e (nth (Z.to_nat i) idx zeroPos) pos) in
    let i := if i >? 0 then i - 1 else i in
    (nth (Z.to_nat i) idx zeroPos, e).

Definition runesPerIndexEntry : Z := 50.

(** One step of the column loop of [closestPosition]. *)
Definition step_col (c : combinedPos) (adv s : Z) : combinedPos :=
  mkPos (ofs c + s) (runes c + 1) (mkSP (X (lineCol c) + 1) (Y (lineCol c)))
    (x c + adv) (y c).

(** Crossing from line [l] to the next line [l']. *)
Definition next_line (e : Editor) (c : combinedPos) (l l' : Line) : combinedPos :=
  mkPos (ofs c) (runes c) (mkSP 0 (Y (lineCol c) + 1))
    (align (EAlignment e) (Width l') (viewW e))
    (y c + Ceil (Descent l + Ascent l')).

(** The column loop of [closestPosition] over the advances of the current
    line from the current column: returns whether [pos] was reached, the
    position, the sample counter and the index. *)
Fixpoint scan_cols (e : Editor) (pos : combinedPos) (advs : list Z)
    (closest : combinedPos) (count : Z) (idx : list combinedPos)
    : bool * combinedPos * Z * list combinedPos :=
  match advs with
  | [] => (false, closest, count, idx)
  | adv :: advs' =>
    let '(idx, count) :=
      if count =? runesPerIndexEntry then (idx ++ [closest], 0) else (idx, count) in
    let count := count + 1 in
    if positionGreaterOrEqual e closest pos then (true, closest, count, idx)
    else
      let s := snd (runeAt (rr e) (ofs closest)) in
      scan_cols e pos advs' (step_col closest adv s) count idx
  end.

(** The line loop of [closestPosition]; [rest] are the lines after the
    current line [l] (the source's test [closest.lineCol.Y == len(e.lines)-1]
    is [rest = []]). *)
Fixpoint scan_lines (e : Editor) (pos : combinedPos) (rest : list Line) (l : Line)
    (closest : combinedPos) (count : Z) (idx : list combinedPos)
    : combinedPos * list combinedPos :=
  match scan_cols e pos (skipn (Z.to_nat (X (lineCol closest))) (Advances l))
          closest count idx with
  | (true, c, _, idx) => (c, idx)
  | (false, c, count, idx) =>
    match rest with
    | [] => (c, idx)
    | l' :: rest' => scan_lines e pos rest' l' (next_line e c l l') count idx
    end
  end.

(** [closestPosition]. *)
Definition closestPosition (pos : combinedPos) : M combinedPos :=
  fun e =>
    let '(closest, e) := indexPosition pos e in
    let Yc := Y (lineCol closest) in
    let '(c, idx) := scan_lines e pos (skipn (S (Z.to_nat Yc)) (lines e))
                       (nth_line e Yc) closest 0 (index e) in
    (c, set_index e idx).

(** [invalidate]. *)
Definition invalidate : M unit :=
  modify (fun e => set_valid (set_index e []) false).

(** [combinedPos{runes: r}]. *)
Definition rune_target (r : Z) : combinedPos := mkPos 0 r (mkSP 0 0) 0 0.

(* ------------------------------------------------------------------ *)
(** ** The mask filter and line layout *)

(** [maskReader]: the runes not yet read from the underlying reader, the
    UTF-8 encoded mask rune and the bytes left over from the last [Read]. *)
Record maskReader := mkMR {
  mr_rr : list Z;
  mr_mask : list Z;
  mr_overflow : list Z
}.

(** [maskReader.Reset] on a freshly reset buffer.  The source keeps the
    previous [overflow]; [layoutText] always reads to [io.EOF], which only
    happens with an empty overflow (see [mask_read_eof_overflow]), so it is
    empty here. *)
Definition maskReader_Reset (b : editBuffer) (mr : Z) : maskReader :=
  mkMR b (encode_rune mr) [].

(** The loop of [maskReader.Read] on a buffer of [blen] bytes: returns the
    bytes copied, whether an error ([io.EOF]) ended it, and the new
    reader.  Every round copies at least one byte, so [blen] rounds are
    enough. *)
Fixpoint mask_read_loop (fuel : nat) (blen : Z) (m : maskReader)
    : list Z * bool * maskReader :=
  match fuel with
  | O => ([], false, m)
  | S fuel =>
    if blen >? 0 then
      let next :=
        match mr_overflow m with
        | _ :: _ => Some (mr_overflow m, m)
        | [] =>
          match mr_rr m with
          | [] => None
          | r :: t =>
            Some (if r =? 10 then [10] else mr_mask m,
                  mkMR t (mr_mask m) (mr_overflow m))
          end
        end in
      match next with
      | None => ([], true, m)
      | Some (replacement, m) =>
        let nn := Z.min blen (Z.of_nat (length replacement)) in
        let m := mkMR (mr_rr m) (mr_mask m) (skipn (Z.to_nat nn) replacement) in
        let '(out, err, m) := mask_read_loop fuel (blen - nn) m in
        (firstn (Z.to_nat nn) replacement ++ out, err, m)
      end
    else ([], false, m)
  end.

(** [maskReader.Read(b)] with [len(b) = blen]. *)
Definition maskReader_Read (m : maskReader) (blen : Z) : list Z * bool * maskReader :=
  mask_read_loop (Z.to_nat blen) blen m.

(** A consumer reading the mask reader to [io.EOF] with a [k]-byte buffer,
    as the shaper does; [fuel] bounds the number of [Read] calls. *)
Fixpoint read_all (fuel : nat) (k : Z) (m : maskReader) : list Z :=
  match fuel with
  | O => []
  | S fuel =>
    let '(out, err, m') := maskReader_Read m k in
    if err then out else out ++ read_all fuel k m'
  end.

(** The byte stream [layoutText] hands to the shaper: the buffer itself,
    or the mask reader interposed on it when a mask rune is set. *)
Definition layout_stream (e : Editor) : list Z :=
  if Mask e =? 0 then encode_string (rr e)
  else read_all (S (4 * length (rr e))) 4096 (maskReader_Reset (rr e) (Mask e)).

(** [nullLayout]: one line holding every rune, all advances zero. *)
Definition nullLayout (bs : list Z) : list Line :=
  let rs := decode_all (length bs) bs in
  [mkLine rs (repeat 0 (length rs)) 0 0 0].

(** [layoutText], the lines part of its result. *)
Definition layoutText (e : Editor) : list Line :=
  let stream := layout_stream e in
  match shaper e with
  | Some sh => sh stream
  | None => nullLayout stream
  end.

(** [Text]: [e.rr.String()]. *)
Definition Text (e : Editor) : list Z := encode_string (rr e).

(* ------------------------------------------------------------------ *)
(** ** Validity *)

Fixpoint resolve_all (ps : list combinedPos) : M (list combinedPos) :=
  match ps with
  | [] => ret []
  | p :: ps =>
    p' <- closestPosition (rune_target (runes p)) ;;
    ps' <- resolve_all ps ;;
    ret (p' :: ps')
  end.

(** [makeValidCaret]: the extra positions first, then the caret start and
    end, each re-resolved from its rune offset. *)
Definition makeValidCaret (ps : list combinedPos) : M (list combinedPos) :=
  ps' <- resolve_all ps ;;
  e <- get ;;
  s <- closestPosition (rune_target (runes (caret_start e))) ;;
  modify (fun e => set_start e s) ;;;
  e <- get ;;
  t <- closestPosition (rune_target (runes (caret_end e))) ;;
  modify (fun e => set_end e t) ;;;
  ret ps'.

(** [makeValid(positions...)]. *)
Definition makeValid (ps : list combinedPos) : M (list combinedPos) :=
  e <- get ;;
  if valid e then ret ps
  else
    (modify (fun e => set_lines e (layoutText e)) ;;;
     ps' <- makeValidCaret ps ;;
     modify (fun e => set_valid e true) ;;;
     ret ps').

(* ------------------------------------------------------------------ *)
(** ** Editing *)

Definition with_ofs_runes (p : combinedPos) (o r : Z) : combinedPos :=
  mkPos o r (lineCol p) (x p) (y p).

Fixpoint seek_back (fuel : nat) (b : editBuffer) (pos : combinedPos) (target : Z)
    : combinedPos :=
  match fuel with
  | O => pos
  | S fuel =>
    if (runes pos >? target) && (ofs pos >? 0) then
      let s := snd (runeBefore b (ofs pos)) in
      seek_back fuel b (with_ofs_runes pos (ofs pos - s) (runes pos - 1)) target
    else pos
  end.

Fixpoint seek_fwd (fuel : nat) (b : editBuffer) (pos : combinedPos) (target : Z)
    : combinedPos :=
  match fuel with
  | O => pos
  | S fuel =>
    if (runes pos <? target) && (ofs pos <? buf_len b) then
      let s := snd (runeAt b (ofs pos)) in
      seek_fwd fuel b (with_ofs_runes pos (ofs pos + s) (runes pos + 1)) target
    else pos
  end.

(** [seek]: each loop moves [runes] one step towards the target, so the
    distance bounds its rounds. *)
Definition seek (b : editBuffer) (hint : combinedPos) (r : Z) : combinedPos :=
  let pos := seek_back (Z.to_nat (runes hint - r)) b hint r in
  seek_fwd (Z.to_nat (r - runes pos)) b pos r.

Definition len_runes (s : list Z) : Z := Z.of_nat (length s).

(** [replace]: the text between rune offsets [start] and [end] becomes [s]. *)
Definition replace (start end_ : Z) (s : list Z) : M unit :=
  fun e =>
    let s := if SingleLine e then map (fun r => if r =? 10 then 32 else r) s else s in
    let '(start, end_) := if start >? end_ then (end_, start) else (start, end_) in
    let startPos := seek (rr e) (caret_start e) start in
    let endPos := seek (rr e) (caret_end e) end_ in
    let b := deleteRunes (rr e) (ofs startPos) (runes endPos - runes startPos) in
    let b := prepend b (ofs startPos) s in
    let newEnd := runes startPos + len_runes s in
    let adjust (pos : combinedPos) : combinedPos :=
      let r := if (newEnd <? runes pos) && (runes pos <=? runes endPos) then newEnd
               else if runes endPos <? runes pos then runes pos + (newEnd - runes endPos)
               else runes pos in
      seek b startPos r in
    let e := set_rr e b in
    let e := set_start e (adjust (caret_start e)) in
    let e := set_end e (adjust (caret_end e)) in
    invalidate e.

(** [append]: insert [s] at the caret, overwriting the selection. *)
Definition append (s : list Z) : M unit :=
  e <- get ;;
  replace (runes (caret_start e)) (runes (caret_end e)) s ;;;
  modify (fun e =>
    let st := caret_start e in
    let st := with_ofs_runes st (ofs st + bytes_len s) (runes st + len_runes s) in
    set_end (set_start (set_xoff e 0) st) st).

(* ------------------------------------------------------------------ *)
(** ** Caret movement *)

Inductive selectionAction := selectionExtend | selectionClear.

(** [ClearSelection]. *)
Definition ClearSelection : M unit :=
  modify (fun e => set_end e (caret_start e)).

(** [updateSelection]. *)
Definition updateSelection (selAct : selectionAction) : M unit :=
  match selAct with
  | selectionClear => ClearSelection
  | selectionExtend => ret tt
  end.

(** [MoveCaret]. *)
Definition MoveCaret (startDelta endDelta : Z) : M unit :=
  makeValid [] ;;;
  modify (fun e => set_xoff e 0) ;;;
  e <- get ;;
  s <- closestPosition (rune_target (runes (caret_start e) + startDelta)) ;;
  modify (fun e => set_start e s) ;;;
  e <- get ;;
  t <- closestPosition (rune_target (runes (caret_end e) + endDelta)) ;;
  modify (fun e => set_end e t).

(** [unicode.IsSpace]. *)
Definition IsSpace (r : Z) : bool :=
  if r <=? 255 then
    (r =? 9) || (r =? 10) || (r =? 11) || (r =? 12) || (r =? 13) || (r =? 32)
    || (r =? 133) || (r =? 160)
  else
    (r =? 5760) || ((8192 <=? r) && (r <=? 8202)) || (r =? 8232) || (r =? 8233)
    || (r =? 8239) || (r =? 8287) || (r =? 12288).

(** A Go [for cond { body }] loop in the monad; [fuel] bounds its rounds. *)
Fixpoint while_m (fuel : nat) (cond : M bool) (body : M unit) : M unit :=
  match fuel with
  | O => ret tt
  | S fuel => c <- cond ;; if c then (body ;;; while_m fuel cond body) else ret tt
  end.

Fixpoint repeat_m (n : nat) (body : M unit) : M unit :=
  match n with
  | O => ret tt
  | S n => body ;;; repeat_m n body
  end.

(** [moveWord].  Each round of its inner loops moves the caret by one
    code point, so the content length bounds them. *)
Definition moveWord (distance : Z) (selAct : selectionAction) : M unit :=
  makeValid [] ;;;
  let '(words, direction) :=
    if distance <? 0 then (- distance, -1) else (distance, 1) in
  let atEnd : M bool := fun e =>
    ((ofs (caret_start e) =? 0) || (ofs (caret_start e) =? buf_len (rr e)), e) in
  let next : M Z := fun e =>
    (if direction <? 0 then fst (runeBefore (rr e) (ofs (caret_start e)))
     else fst (runeAt (rr e) (ofs (caret_start e))), e) in
  e <- get ;;
  let fuel := S (length (rr e)) in
  repeat_m (Z.to_nat words)
    (while_m fuel (r <- next ;; a <- atEnd ;; ret (IsSpace r && negb a))
       (MoveCaret direction 0) ;;;
     MoveCaret direction 0 ;;;
     while_m fuel (r <- next ;; a <- atEnd ;; ret (negb (IsSpace r) && negb a))
       (MoveCaret direction 0)) ;;;
  updateSelection selAct.

(** The loop of [movePosToStart], for [i] from [X - 1] down to [0]. *)
Fixpoint back_cols (i : nat) (b : editBuffer) (l : Line) (pos : combinedPos)
    : combinedPos :=
  match i with
  | O => pos
  | S i' =>
    let s := snd (runeBefore b (ofs pos)) in
    back_cols i' b l
      (mkPos (ofs pos - s) (runes pos - 1) (lineCol pos)
         (x pos - adv_at l (Z.of_nat i')) (y pos))
  end.

(** [movePosToStart]. *)
Definition movePosToStart (pos : combinedPos) : M combinedPos :=
  ps <- makeValid [pos] ;;
  let pos := hd pos ps in
  e <- get ;;
  let l := nth_line e (Y (lineCol pos)) in
  let pos := back_cols (Z.to_nat (X (lineCol pos))) (rr e) l pos in
  ret (mkPos (ofs pos) (runes pos) (mkSP 0 (Y (lineCol pos))) (x pos) (y pos)).

(** The loop of [movePosToEnd], [n] rounds from column [i]. *)
Fixpoint fwd_cols (n : nat) (i : Z) (b : editBuffer) (l : Line) (pos : combinedPos)
    : combinedPos :=
  match n with
  | O => pos
  | S n =>
    let adv := adv_at l i in
    let s := snd (runeAt b (ofs pos)) in
    fwd_cols n (i + 1) b l
      (mkPos (ofs pos + s) (runes pos + 1)
         (mkSP (X (lineCol pos) + 1) (Y (lineCol pos))) (x pos + adv) (y pos))
  end.

(** [movePosToEnd]: the position and the [xoff] anchoring past the end. *)
Definition movePosToEnd (pos : combinedPos) : M (combinedPos * Z) :=
  ps <- makeValid [pos] ;;
  let pos := hd pos ps in
  e <- get ;;
  let l := nth_line e (Y (lineCol pos)) in
  let end_ := if Y (lineCol pos) <? nlines e - 1 then 1 else 0 in
  let pos := fwd_cols (Z.to_nat (alen l - end_ - X (lineCol pos)))
               (X (lineCol pos)) (rr e) l pos in
  let a := align (EAlignment e) (Width l) (viewW e) in
  ret (pos, Width l + a - x pos).

(** The first loop of [movePosToLine], [n] rounds downwards. *)
Fixpoint down_lines (n : nat) (prevDesc : Z) (pos : combinedPos) : M combinedPos :=
  match n with
  | O => ret pos
  | S n =>
    pe <- movePosToEnd pos ;;
    let pos := fst pe in
    e <- get ;;
    let l := nth_line e (Y (lineCol pos)) in
    let s := snd (runeAt (rr e) (ofs pos)) in
    let pos := mkPos (ofs pos + s) (runes pos + 1) (mkSP 0 (Y (lineCol pos) + 1))
                 (x pos) (y pos + Ceil (prevDesc + Ascent l)) in
    down_lines n (Descent l) pos
  end.

(** The second loop of [movePosToLine], [n] rounds upwards. *)
Fixpoint up_lines (n : nat) (prevDesc : Z) (pos : combinedPos) : M combinedPos :=
  match n with
  | O => ret pos
  | S n =>
    pos <- movePosToStart pos ;;
    e <- get ;;
    let l := nth_line e (Y (lineCol pos)) in
    let s := snd (runeBefore (rr e) (ofs pos)) in
    let Y' := Y (lineCol pos) - 1 in
    let pos := mkPos (ofs pos - s) (runes pos - 1)
                 (mkSP (alen (nth_line e Y') - 1) Y')
                 (x pos) (y pos - Ceil (prevDesc + Ascent l)) in
    up_lines n (Descent l) pos
  end.

(** The column loop of [movePosToLine]: move to the rune closest to
    [tx]. *)
Fixpoint col_loop (advs : list Z) (b : editBuffer) (tx : Z) (pos : combinedPos)
    : combinedPos :=
  match advs with
  | [] => pos
  | adv :: advs' =>
    if x pos >=? tx then pos
    else if x pos + adv - tx >=? tx - x pos then pos
    else
      let s := snd (runeAt b (ofs pos)) in
      col_loop advs' b tx
        (mkPos (ofs pos + s) (runes pos + 1)
           (mkSP (X (lineCol pos) + 1) (Y (lineCol pos))) (x pos + adv) (y pos))
  end.

(** [movePosToLine]. *)
Definition movePosToLine (pos : combinedPos) (tx : Z) (line : Z) : M combinedPos :=
  ps <- makeValid [pos] ;;
  let pos := hd pos ps in
  e <- get ;;
  let line := if line <? 0 then 0 else line in
  let line := if line >=? nlines e then nlines e - 1 else line in
  let prevDesc := Descent (nth_line e line) in
  pos <- down_lines (Z.to_nat (line - Y (lineCol pos))) prevDesc pos ;;
  pos <- up_lines (Z.to_nat (Y (lineCol pos) - line)) prevDesc pos ;;
  pos <- movePosToStart pos ;;
  e <- get ;;
  let l := nth_line e line in
  let pos := mkPos (ofs pos) (runes pos) (lineCol pos)
               (align (EAlignment e) (Width l) (viewW e)) (y pos) in
  let end_ := if line <? nlines e - 1 then 1 else 0 in
  ret (col_loop (firstn (Z.to_nat (alen l - end_)) (Advances l)) (rr e) tx pos).

(** [moveLines]. *)
Definition moveLines (distance : Z) (selAct : selectionAction) : M unit :=
  e <- get ;;
  let tx := x (caret_start e) + caret_xoff e in
  p <- movePosToLine (caret_start e) tx (Y (lineCol (caret_start e)) + distance) ;;
  modify (fun e => set_xoff (set_start e p) (tx - x p)) ;;;
  updateSelection selAct.

Definition MaxInt : Z := 9223372036854775807.

(** The select-all command of [command] (Shortcut-A). *)
Definition selectAll : M unit :=
  t <- closestPosition zeroPos ;;
  modify (fun e => set_end e t) ;;;
  s <- closestPosition (rune_target MaxInt) ;;
  modify (fun e => set_start e s).

(* ------------------------------------------------------------------ *)
(** ** Notions used by the statements *)

(** A position agrees with the buffer: its storage offset is the encoded
    size of the code points before its rune offset. *)
Definition at_rune (b : editBuffer) (p : combinedPos) (k : Z) : combinedPos :=
  with_ofs_runes p (bytes_len (firstn (Z.to_nat k) b)) k.

Definition pos_consistent (b : editBuffer) (p : combinedPos) : Prop :=
  0 <= runes p <= Z.of_nat (length b) /\ ofs p = bytes_len (firstn (Z.to_nat (runes p)) b).

Definition clamp (v lo hi : Z) : Z := Z.max lo (Z.min v hi).

(** The re-mapping [replace] applies to a rune offset [p], for the sorted
    and clamped range [[a, b]] replaced by text ending at [newEnd]. *)
Definition remap (b newEnd p : Z) : Z :=
  if p <=? b then Z.min p newEnd else p + (newEnd - b).

(** The x of column [c] of line [l]. *)
Definition colx (e : Editor) (l : Line) (c : Z) : Z :=
  align (EAlignment e) (Width l) (viewW e) + fold_right Z.add 0 (firstn (Z.to_nat c) (Advances l)).

(** The end-of-line test of [positionGreaterOrEqual]. *)
Definition is_eol (e : Editor) (p : combinedPos) : bool :=
  let l := nth_line e (Y (lineCol p)) in
  let endCol := alen l - 1 in
  let endCol := if Y (lineCol p) =? nlines e - 1 then endCol + 1 else endCol in
  X (lineCol p) =? endCol.

(** Total number of columns of a layout. *)
Definition total_cols (ls : list Line) : Z :=
  fold_right (fun l acc => alen l + acc) 0 ls.

(** Columns before line [i]. *)
Definition prefix_cols (ls : list Line) (i : Z) : Z :=
  total_cols (firstn (Z.to_nat i) ls).

(** A position the scan of [closestPosition] can be at: a line of the
    layout, a column within it, and the rune offset those give. *)
Definition scan_pos (e : Editor) (p : combinedPos) : Prop :=
  0 <= Y (lineCol p) < nlines e /\
  0 <= X (lineCol p) <= alen (nth_line e (Y (lineCol p))) /\
  runes p = prefix_cols (lines e) (Y (lineCol p)) + X (lineCol p).

(** The index holds scan positions, the first at rune offset 0. *)
Definition index_ok (e : Editor) : Prop :=
  Forall (scan_pos e) (index e) /\
  match index e with [] => True | p :: _ => runes p = 0 end.

(** The linear resolver: [closestPosition] scanning from the first
    position of the content, without an index. *)
Definition linear_resolve (pos : combinedPos) (e : Editor) : combinedPos :=
  let o := originPos e in
  fst (scan_lines e pos (skipn 1 (lines e)) (nth_line e 0) o 0 []).

(** The bytes the mask filter substitutes for rune [r]. *)
Definition repl (mask : list Z) (r : Z) : list Z := if r =? 10 then [10] else mask.

(** The bytes a mask reader has still to deliver: its overflow, then the
    substitutes of the runes not yet read. *)
Definition mask_stream (m : maskReader) : list Z :=
  mr_overflow m ++ flat_map (repl (mr_mask m)) (mr_rr m).

(* ------------------------------------------------------------------ *)
(** ** Concrete editors *)

(** An editor laid out without a shaper, valid, with empty index. *)
Definition plain_editor (b : editBuffer) (s t : combinedPos) : Editor :=
  mkEditor Start false 0 b None 1000 true (nullLayout (encode_string b)) [] s t 0.

Definition laid_out (b : editBuffer) (ls : list Line) (s t : combinedPos) : Editor :=
  mkEditor Start false 0 b None 1000 true ls [] s t 0.

Definition hello_world : list Z := [104;101;108;108;111;32;119;111;114;108;100].

Definition ten_runes : list Z := repeat 97 10.

Definition abcdef : list Z := [97;98;99;100;101;102].

(** ["ab\ncdef"] in a monospace font: 1px-wide columns of 64 units. *)
Definition ab_cdef : list Z := [97;98;10;99;100;101;102].
Definition ab_line : Line := mkLine [97;98;10] [64;64;64] 640 192 192.
Definition cdef_line : Line := mkLine [99;100;101;102] [64;64;64;64] 640 192 256.
Definition ab_cdef_editor : Editor :=
  laid_out ab_cdef [ab_line; cdef_line]
    (mkPos 1 1 (mkSP 1 0) 64 10) (mkPos 1 1 (mkSP 1 0) 64 10).

(** Two lines of 50 and 20 columns with half-pixel ascent and descent:
    the pixel row 2 lies in both lines' vertical spans. *)
Definition two_lines_text : list Z := repeat 97 49 ++ [10] ++ repeat 97 20.
Definition two_lines_editor : Editor :=
  laid_out two_lines_text
    [mkLine [] (repeat 64 50) 32 32 3200; mkLine [] (repeat 64 20) 32 32 1280]
    zeroPos zeroPos.

(** Three lines of 50 columns with half-pixel ascent and descent; the
    first column of the middle line is 10px wide. *)
Definition three_lines_text : list Z :=
  repeat 97 49 ++ [10] ++ repeat 97 49 ++ [10] ++ repeat 97 50.
Definition three_lines_editor : Editor :=
  laid_out three_lines_text
    [mkLine [] (repeat 64 50) 32 32 3200;
     mkLine [] (640 :: repeat 64 49) 32 32 3776;
     mkLine [] (repeat 64 50) 32 32 3200]
    zeroPos zeroPos.

(** ["ab\n"] above a line starting with a zero-width space, the caret
    at the start of the first line with a 10-unit horizontal anchor. *)
Definition zero_width_line : Line := mkLine [8203;120;121] [0;64;64] 640 192 128.
Definition zero_width_editor : Editor :=
  mkEditor Start false 0 [97;98;10;8203;120;121] None 1000 true
    [ab_line; zero_width_line] []
    (mkPos 0 0 (mkSP 0 0) 0 10) (mkPos 0 0 (mkSP 0 0) 0 10) 10.

(** ["a\nb"] masked with a bullet (U+2022), not yet laid out. *)
Definition masked_editor : Editor :=
  mkEditor Start false 8226 [97;10;98] None 1000 false [] [] zeroPos zeroPos 0.

(* ------------------------------------------------------------------ *)
(** ** More of the editor's methods *)


(** [abs]. *)
Definition abs (n : Z) : Z := if n <? 0 then - n else n.

(** [min] and [max]. *)
Definition min (a b : Z) : Z := if a <? b then a else b.
Definition max (a b : Z) : Z := if a >? b then a else b.


(** [SetText]: an empty buffer, both caret ends at the zero position,
    then [s] inserted by [replace]. *)
Definition SetText (s : list Z) : M unit :=
  modify (fun e => set_end (set_start (set_rr e []) zeroPos) zeroPos) ;;;
  e <- get ;;
  replace (runes (caret_start e)) (runes (caret_end e)) s ;;;
  modify (fun e => set_xoff e 0).

(** [SetCaret]: the rune offsets of both caret ends are set, then
    [makeValidCaret] re-resolves them. *)
Definition SetCaret (start end_ : Z) : M unit :=
  makeValid [] ;;;
  modify (fun e =>
    let s := caret_start e in
    let t := caret_end e in
    set_end (set_start e (with_ofs_runes s (ofs s) start)) (with_ofs_runes t (ofs t) end_)) ;;;
  makeValidCaret [] ;;;
  ret tt.

(** [Len]. *)
Definition Len : M Z :=
  makeValid [] ;;;
  end_ <- closestPosition (rune_target MaxInt) ;;
  ret (runes end_).

(** [SelectionLen]. *)
Definition SelectionLen (e : Editor) : Z :=
  abs (runes (caret_start e) - runes (caret_end e)).

(** [SelectedText]: the storage bytes between the two caret ends, read
    from the buffer (modelled from the spec: [Seek] to [start], then a
    read of [end - start] bytes). *)
Definition SelectedText (e : Editor) : list Z :=
  let start := min (ofs (caret_start e)) (ofs (caret_end e)) in
  let end_ := max (ofs (caret_start e)) (ofs (caret_end e)) in
  firstn (Z.to_nat (end_ - start)) (skipn (Z.to_nat start) (encode_string (rr e))).

(** [moveStart]. *)
Definition moveStart (selAct : selectionAction) : M unit :=
  e <- get ;;
  p <- movePosToStart (caret_start e) ;;
  modify (fun e => set_xoff (set_start e p) (- x p)) ;;;
  updateSelection selAct.

(** [moveEnd]. *)
Definition moveEnd (selAct : selectionAction) : M unit :=
  e <- get ;;
  pe <- movePosToEnd (caret_start e) ;;
  modify (fun e => set_xoff (set_start e (fst pe)) (snd pe)) ;;;
  updateSelection selAct.

(** [image.Point] and [image.Rectangle]. *)
Record point := mkPt { ptX : Z; ptY : Z }.
Record rectangle := mkRect { rMin : point; rMax : point }.

(** [scrollBounds].  The scroll offset, [e.dims.Size] and
    [e.viewSize.Y] are not part of [Editor] above: they are passed
    explicitly ([viewW] is [e.viewSize.X]). *)
Definition scrollBounds (e : Editor) (dims : point) (viewY : Z) : rectangle :=
  if SingleLine e then
    let minX :=
      match lines e with
      | l :: _ =>
        let m := Floor (align (EAlignment e) (Width l) (viewW e)) in
        if m >? 0 then 0 else m
      | [] => 0
      end in
    mkRect (mkPt minX 0) (mkPt (ptX dims + minX - viewW e) 0)
  else mkRect (mkPt 0 0) (mkPt 0 (ptY dims - viewY)).

(** [scrollAbs]: the new scroll offset. *)
Definition scrollAbs (e : Editor) (dims : point) (viewY : Z) (px py : Z) : point :=
  let b := scrollBounds e dims viewY in
  let sx := if px >? ptX (rMax b) then ptX (rMax b) else px in
  let sx := if sx <? ptX (rMin b) then ptX (rMin b) else sx in
  let sy := if py >? ptY (rMax b) then ptY (rMax b) else py in
  let sy := if sy <? ptY (rMin b) then ptY (rMin b) else sy in
  mkPt sx sy.

(** [scrollRel]. *)
Definition scrollRel (e : Editor) (dims : point) (viewY : Z) (so : point) (dx dy : Z) : point :=
  scrollAbs e dims viewY (ptX so + dx) (ptY so + dy).

(** [scrollToCaret]: the new scroll offset from [so]. *)
Definition scrollToCaret (dims : point) (viewY : Z) (so : point) : M point :=
  makeValid [] ;;;
  e <- get ;;
  let cs := caret_start e in
  let l := nth_line e (Y (lineCol cs)) in
  if SingleLine e then
    let dist :=
      if Floor (x cs) - ptX so <? 0 then Floor (x cs) - ptX so
      else if Ceil (x cs) - (ptX so + viewW e) >? 0 then Ceil (x cs) - (ptX so + viewW e)
      else 0 in
    ret (scrollRel e dims viewY so dist 0)
  else
    let miny := y cs - Ceil (Ascent l) in
    let maxy := y cs + Ceil (Descent l) in
    let dist :=
      if miny - ptY so <? 0 then miny - ptY so
      else if maxy - (ptY so + viewY) >? 0 then maxy - (ptY so + viewY)
      else 0 in
    ret (scrollRel e dims viewY so 0 dist).

(* ------------------------------------------------------------------ *)
(** ** Invariants *)

(** The rune [utf8.DecodeRune] gives back for [encode_rune r]. *)
Definition valid_rune (r : Z) : Z :=
  if (r <? 0) || ((55296 <=? r) && (r <=? 57343)) || (1114111 <? r) then RuneError else r.

(** A position of the layout that agrees with the buffer. *)
Definition good_pos (e : Editor) (p : combinedPos) : Prop :=
  scan_pos e p /\ pos_consistent (rr e) p.

(** The index holds such positions, the first at rune offset 0. *)
Definition index_good (e : Editor) : Prop :=
  Forall (good_pos e) (index e) /\
  match index e with [] => True | p :: _ => runes p = 0 end.

(** A layout of at least one line whose columns are the runes of the
    buffer, and a good index. *)
Definition layout_ok (e : Editor) : Prop :=
  lines e <> [] /\ total_cols (lines e) = Z.of_nat (length (rr e)) /\ index_good e.

(* ================================================================== *)
(** * Concrete runs *)

(** C5 (counterexample): on ["hello world"] with the caret at 0, one
    forward word move stops at offset 5, after ["hello"], not at 6. *)
Lemma moveWord_hello_first_stops_at_5 :
  let e1 := snd (moveWord 1 selectionClear (plain_editor hello_world zeroPos zeroPos)) in
  runes (caret_start e1) = 5 /\ runes (caret_start e1) <> 6.
Proof. vm_compute. split; [reflexivity | discriminate]. Qed.

(** C5 (amended): on ["hello world"] with the caret at 0, a forward word
    move skips whitespace, then the next non-whitespace run, and stops at
    its end: offset 5 after ["hello"], then offset 11 at the end of the
    content; the selection is cleared both times. *)
Lemma moveWord_hello_world :
  let e1 := snd (moveWord 1 selectionClear (plain_editor hello_world zeroPos zeroPos)) in
  let e2 := snd (moveWord 1 selectionClear e1) in
  runes (caret_start e1) = 5 /\ runes (caret_end e1) = 5 /\
  runes (caret_start e2) = 11 /\ runes (caret_end e2) = 11.
Proof. vm_compute. repeat split. Qed.

(** C1 (counterexample): on ten code points with the caret (both ends)
    at 3, [replace(0, 5, "abcdefgh")] leaves the caret at 3, although 3
    lies strictly inside the deleted range and the insertion ends at 8. *)
Lemma replace_inside_not_collapsed :
  let e := snd (replace 0 5 [97;98;99;100;101;102;103;104]
                  (plain_editor ten_runes (mkPos 3 3 (mkSP 3 0) 0 0)
                     (mkPos 3 3 (mkSP 3 0) 0 0))) in
  runes (caret_start e) = 3 /\ runes (caret_start e) <> 0 + 8.
Proof. vm_compute. split; [reflexivity | discriminate]. Qed.

(** C10 (failing input): on ["abcdef"] with the caret start at 4 after the
    selection end at 2, appending ["xyz"] replaces ["cd"] but leaves the
    caret at 7 (the end of the content ["abxyzef"]), not at 2 + 3 = 5;
    re-validation keeps it there. *)
Lemma append_reversed_selection :
  let e := snd (append [120;121;122]
                  (plain_editor abcdef (mkPos 4 4 (mkSP 4 0) 0 0) (mkPos 2 2 (mkSP 2 0) 0 0))) in
  rr e = [97;98;120;121;122;101;102] /\
  runes (caret_start e) = 7 /\ runes (caret_end e) = 7 /\
  runes (caret_start (snd (makeValid [] e))) = 7.
Proof. vm_compute. repeat split. Qed.

(** C3 (failing input): with two lines whose vertical spans share the
    pixel row 2, the pixel target (640, 2) resolves to rune 10 by the
    linear resolver and with an empty index, but to rune 60 once a rune
    query has sampled rune 50 into the index. *)
Lemma closestPosition_index_dependent :
  let pt := mkPos 0 0 (mkSP 0 0) 640 2 in
  let e := two_lines_editor in
  let e' := snd (closestPosition (rune_target 60) e) in
  runes (linear_resolve pt e) = 10 /\
  runes (fst (closestPosition pt e)) = 10 /\
  map runes (index e') = [0; 50] /\
  runes (fst (closestPosition pt e')) = 60.
Proof. vm_compute. repeat split. Qed.

(** C4 (failing input): with three lines and the index sampled at runes
    0, 50 and 100, two consecutive queries for the pixel target (320, 3)
    return rune 50 and then rune 105: the first query appends a second
    sample at rune 50 after the one at 100, and the binary search of the
    second query then starts from rune 100. *)
Lemma closestPosition_not_idempotent :
  let pt := mkPos 0 0 (mkSP 0 0) 320 3 in
  let e := snd (closestPosition (rune_target 100) three_lines_editor) in
  let '(p1, e1) := closestPosition pt e in
  let '(p2, _) := closestPosition pt e1 in
  map runes (index e) = [0; 50; 100] /\
  runes p1 = 50 /\ map runes (index e1) = [0; 50; 100; 50] /\ runes p2 = 105.
Proof. vm_compute. repeat split. Qed.

(** C9 (failing input): on ["ab"] with the caret at 2, an edit event
    appending ["c"] followed in the same frame by Shortcut-A: select-all
    resolves its positions while the editor is invalid, against the
    layout of ["ab"], and the selection stays [(2, 0)] on ["abc"] after
    re-validation. *)
Lemma selectAll_after_edit_stale :
  let e0 := plain_editor [97;98] (mkPos 2 2 (mkSP 2 0) 0 0) (mkPos 2 2 (mkSP 2 0) 0 0) in
  let e1 := snd (append [99] e0) in
  let e2 := snd (selectAll e1) in
  let e3 := snd (makeValid [] e2) in
  valid e1 = false /\ lines e1 = lines e0 /\
  runes (caret_start e2) = 2 /\ runes (caret_end e2) = 0 /\
  rr e3 = [97;98;99] /\ valid e3 = true /\
  runes (caret_start e3) = 2 /\ runes (caret_end e3) = 0.
Proof. vm_compute. repeat split. Qed.

(** C6 (counterexample): the destination line starts with a zero-width
    column; for the target x 10, columns 0 and 1 are equally close, moving
    one column from 0 does not bring the caret closer, yet the line move
    lands on column 1. *)
Lemma moveLines_zero_width_tie :
  let e := zero_width_editor in
  let e' := snd (moveLines 1 selectionClear e) in
  let l := zero_width_line in
  x (caret_start e) + caret_xoff e = 10 /\
  Y (lineCol (caret_start e')) = 1 /\ X (lineCol (caret_start e')) = 1 /\
  Z.abs (colx e l 0 - 10) = Z.abs (colx e l 1 - 10) /\
  X (lineCol (caret_start e')) <> 0.
Proof. vm_compute. repeat split. discriminate. Qed.

(** C7 (counterexample): column 0 of a line whose first advance is zero,
    against the pixel target (10, 23) on that line: advancing one column
    leaves the distance at 10, yet the comparator reports "less". *)
Lemma positionGreaterOrEqual_zero_advance :
  let e := zero_width_editor in
  let p := mkPos 3 3 (mkSP 0 1) 0 23 in
  let t := mkPos 0 0 (mkSP 0 0) 10 23 in
  Z.abs (x p + adv_at zero_width_line 0 - x t) = Z.abs (x p - x t) /\
  positionGreaterOrEqual e p t = false.
Proof. vm_compute. split; reflexivity. Qed.

(* ================================================================== *)
(** * The comparator *)

(** C7 (amended): for a line/column target, the order is by line and,
    within the target's line, end-of-line counts as "greater or equal";
    for a pixel target whose y lies in the candidate's line span, the
    candidate is "greater or equal" exactly when it is at end of line or
    [x + adv - tx >= tx - x] ([adv] the advance of its column), which is
    "advancing one column would not bring it strictly closer to [tx]"
    whenever that advance is positive. *)
Theorem positionGreaterOrEqual_order (e : Editor) :
  (forall p c l, (c, l) <> (0, 0) ->
     positionGreaterOrEqual e p (mkPos 0 0 (mkSP c l) 0 0) =
     if Y (lineCol p) =? l then is_eol e p || (X (lineCol p) >=? c)
     else Y (lineCol p) >? l) /\
  (forall p tx ty, (tx, ty) <> (0, 0) ->
     let ln := nth_line e (Y (lineCol p)) in
     ~ (y p + Ceil (Descent ln) < ty /\ Y (lineCol p) < nlines e - 1) ->
     ~ (y p - Ceil (Ascent ln) >= ty /\ Y (lineCol p) > 0) ->
     let adv := adv_at ln (X (lineCol p)) in
     positionGreaterOrEqual e p (mkPos 0 0 (mkSP 0 0) tx ty) =
       is_eol e p || (x p + adv - tx >=? tx - x p) /\
     (0 < adv ->
      (positionGreaterOrEqual e p (mkPos 0 0 (mkSP 0 0) tx ty) = true <->
       is_eol e p = true \/ ~ Z.abs (x p + adv - tx) < Z.abs (x p - tx)))).
Proof.
  split.
  - intros p c l Hcl. unfold positionGreaterOrEqual, is_eol. cbn [runes lineCol X Y x y].
    rewrite Z.eqb_refl. cbn [negb].
    unfold screenPos_eqb. cbn [X Y].
    destruct (c =? 0) eqn:Hc, (l =? 0) eqn:Hl; cbn [andb negb].
    + apply Z.eqb_eq in Hc, Hl. subst. exfalso; apply Hcl; reflexivity.
    + destruct (Y (lineCol p) =? l); reflexivity.
    + destruct (Y (lineCol p) =? l); reflexivity.
    + destruct (Y (lineCol p) =? l); reflexivity.
  - intros p tx ty Hxy ln Hbefore Hafter adv.
    assert (Hge : positionGreaterOrEqual e p (mkPos 0 0 (mkSP 0 0) tx ty) =
                  is_eol e p || (x p + adv - tx >=? tx - x p)).
    { unfold positionGreaterOrEqual, is_eol. cbn [runes lineCol X Y x y].
      rewrite Z.eqb_refl. cbn [negb]. unfold screenPos_eqb. cbn [X Y].
      rewrite !Z.eqb_refl. cbn [andb negb].
      assert (Hn : negb (tx =? 0) || negb (ty =? 0) = true).
      { destruct (tx =? 0) eqn:H1, (ty =? 0) eqn:H2; try reflexivity.
        apply Z.eqb_eq in H1, H2. subst. exfalso; apply Hxy; reflexivity. }
      rewrite Hn. fold ln.
      destruct ((y p + Ceil (Descent ln) <? ty) && (Y (lineCol p) <? nlines e - 1)) eqn:H1.
      { apply andb_prop in H1. destruct H1 as [H1 H2].
        apply Z.ltb_lt in H1, H2. exfalso. apply Hbefore. split; assumption. }
      destruct ((y p - Ceil (Ascent ln) >=? ty) && (Y (lineCol p) >? 0)) eqn:H2.
      { apply andb_prop in H2. destruct H2 as [H2 H3].
        apply Z.geb_le in H2. apply Z.gtb_lt in H3. exfalso. apply Hafter. lia. }
      destruct (X (lineCol p) =? _); reflexivity. }
    split; [exact Hge |].
    intros Hadv. rewrite Hge. split.
    + intros H. apply orb_prop in H. destruct H as [H | H]; [left; exact H | right].
      apply Z.geb_le in H. intros Hlt.
      destruct (Z.abs_spec (x p + adv - tx)) as [[A1 A2] | [A1 A2]];
      destruct (Z.abs_spec (x p - tx)) as [[B1 B2] | [B1 B2]]; lia.
    + intros [H | H]; [rewrite H; reflexivity |].
      apply orb_true_intro. right. apply Z.geb_le.
      destruct (Z.abs_spec (x p + adv - tx)) as [[A1 A2] | [A1 A2]];
      destruct (Z.abs_spec (x p - tx)) as [[B1 B2] | [B1 B2]]; lia.
Qed.

(* ================================================================== *)
(** * Resolving rune offsets *)

Lemma ge_rune_target (e : Editor) (p : combinedPos) (r : Z) :
  0 <= runes p ->
  positionGreaterOrEqual e p (rune_target r) = (runes p >=? r).
Proof.
  intros Hp. unfold positionGreaterOrEqual, rune_target. cbn [runes lineCol x y].
  destruct (r =? 0) eqn:Hr; cbn [negb].
  - apply Z.eqb_eq in Hr. subst. unfold screenPos_eqb. cbn [X Y]. cbn.
    symmetry. apply Z.geb_le. lia.
  - reflexivity.
Qed.

Lemma total_cols_nil : total_cols [] = 0.
Proof. reflexivity. Qed.

Lemma total_cols_cons (l : Line) (ls : list Line) :
  total_cols (l :: ls) = alen l + total_cols ls.
Proof. reflexivity. Qed.

Lemma total_cols_nonneg (ls : list Line) : 0 <= total_cols ls.
Proof.
  induction ls as [| l ls IH]; [reflexivity |].
  rewrite total_cols_cons. unfold alen. lia.
Qed.

Lemma scan_cols_runes (e : Editor) (r : Z) :
  forall advs c cnt idx, 0 <= runes c ->
  let '(b, c', _, _) := scan_cols e (rune_target r) advs c cnt idx in
  runes c' = Z.max (runes c) (Z.min r (runes c + Z.of_nat (length advs))) /\
  (b = false -> runes c' = runes c + Z.of_nat (length advs) /\
                (length advs = 0%nat \/ runes c + Z.of_nat (length advs) <= r)) /\
  (b = true -> (0 < length advs)%nat /\
               (r <= runes c \/ r < runes c + Z.of_nat (length advs))).
Proof.
  induction advs as [| adv advs IH]; intros c cnt idx Hc.
  - cbn. repeat split; intros; try discriminate; lia.
  - cbn [scan_cols].
    destruct (if cnt =? runesPerIndexEntry then (idx ++ [c], 0) else (idx, cnt))
      as [idx' cnt'].
    rewrite ge_rune_target by exact Hc.
    destruct (runes c >=? r) eqn:Hge.
    + apply Z.geb_le in Hge. cbn [length]. repeat split; intros; try discriminate; lia.
    + rewrite Z.geb_leb in Hge. apply Z.leb_gt in Hge.
      specialize (IH (step_col c adv (snd (runeAt (rr e) (ofs c)))) (cnt' + 1) idx').
      cbn [runes step_col] in IH.
      destruct (scan_cols _ _ _ _ _ _) as [[[b c'] k] i'].
      destruct IH as [H1 [H2 H3]]; [lia |].
      cbn [length]. rewrite Nat2Z.inj_succ.
      split; [| split].
      * rewrite H1. lia.
      * intros Hb. destruct (H2 Hb) as [H4 H5]. rewrite H4. split; lia.
      * intros Hb. destruct (H3 Hb) as [H4 H5]. split; lia.
Qed.

Lemma scan_lines_runes (e : Editor) (r : Z) :
  forall rest l c cnt idx, 0 <= runes c ->
  runes (fst (scan_lines e (rune_target r) rest l c cnt idx)) =
  Z.max (runes c) (Z.min r (runes c
     + Z.of_nat (length (skipn (Z.to_nat (X (lineCol c))) (Advances l)))
     + total_cols rest)).
Proof.
  induction rest as [| l' rest IH]; intros l c cnt idx Hc.
  - cbn [scan_lines].
    pose proof (scan_cols_runes e r (skipn (Z.to_nat (X (lineCol c))) (Advances l)) c cnt idx Hc)
      as Hs.
    destruct (scan_cols _ _ _ _ _ _) as [[[b c'] k] i'].
    destruct Hs as [H1 [H2 _]]. destruct b; cbn [fst].
    + rewrite H1; unfold total_cols; cbn [fold_right]; lia.
    + destruct (H2 eq_refl) as [H4 H5]. rewrite H4. unfold total_cols; cbn [fold_right]. lia.
  - cbn [scan_lines].
    pose proof (scan_cols_runes e r (skipn (Z.to_nat (X (lineCol c))) (Advances l)) c cnt idx Hc)
      as Hs.
    destruct (scan_cols _ _ _ _ _ _) as [[[b c'] k] i'].
    destruct Hs as [H1 [H2 H3]]. destruct b.
    + cbn [fst]. rewrite H1. rewrite total_cols_cons. unfold alen.
      destruct (H3 eq_refl) as [_ H4].
      pose proof (total_cols_nonneg rest).
      lia.
    + destruct (H2 eq_refl) as [H4 H5].
      rewrite IH.
      * unfold next_line. cbn [runes lineCol X]. rewrite H4.
        rewrite total_cols_cons. unfold alen. cbn [Z.to_nat skipn]. pose proof (total_cols_nonneg rest). lia.
      * unfold next_line. cbn [runes]. rewrite H4. lia.
Qed.

Lemma search_loop_spec (f : Z -> bool) :
  forall fuel i j, 0 <= i <= j -> (i = 0 \/ f (i - 1) = false) ->
  let k := search_loop fuel f i j in
  i <= k <= j /\ (k = 0 \/ f (k - 1) = false).
Proof.
  induction fuel as [| fuel IH]; intros i j Hij Hf; cbn [search_loop].
  - split; [lia | exact Hf].
  - destruct (i <? j) eqn:Hlt; [| split; [lia | exact Hf]].
    apply Z.ltb_lt in Hlt.
    rewrite Z.shiftr_div_pow2 by lia. change (2 ^ 1) with 2.
    assert (i <= (i + j) / 2 < j) by (split; [apply Z.div_le_lower_bound | apply Z.div_lt_upper_bound]; lia).
    destruct (f ((i + j) / 2)) eqn:Hh; cbn [negb].
    + destruct (IH i ((i + j) / 2)) as [H1 H2]; [lia | exact Hf |]. split; [lia | exact H2].
    + destruct (IH ((i + j) / 2 + 1) j) as [H1 H2]; [lia | |].
      * right. replace ((i + j) / 2 + 1 - 1) with ((i + j) / 2) by lia. exact Hh.
      * split; [lia | exact H2].
Qed.

Lemma total_cols_split (ls : list Line) :
  forall n, (n < length ls)%nat ->
  total_cols (firstn n ls) + alen (nth n ls emptyLine) + total_cols (skipn (S n) ls)
  = total_cols ls.
Proof.
  induction ls as [| l ls IH]; intros n Hn; [cbn in Hn; lia |].
  destruct n as [| n].
  - cbn [firstn nth skipn]. rewrite total_cols_nil, total_cols_cons. lia.
  - cbn [firstn nth skipn]. rewrite !total_cols_cons.
    cbn [length] in Hn. rewrite <- (IH n) by lia. cbn [skipn]. lia.
Qed.

Lemma scan_pos_set_index (e : Editor) (idx : list combinedPos) (p : combinedPos) :
  scan_pos (set_index e idx) p <-> scan_pos e p.
Proof. reflexivity. Qed.

Lemma originPos_scan_pos (e : Editor) : lines e <> [] -> scan_pos e (originPos e).
Proof.
  intros Hl. unfold scan_pos, originPos, nlines, prefix_cols, alen. cbn [runes lineCol X Y].
  destruct (lines e) as [| l ls]; [congruence |]. cbn [length firstn].
  cbn. lia.
Qed.

Lemma scan_pos_runes_nonneg (e : Editor) (p : combinedPos) : scan_pos e p -> 0 <= runes p.
Proof.
  intros (_ & HX & Hr). rewrite Hr. unfold prefix_cols.
  pose proof (total_cols_nonneg (firstn (Z.to_nat (Y (lineCol p))) (lines e))). lia.
Qed.

Lemma indexPosition_rune (e : Editor) (r : Z) (c : combinedPos) (e1 : Editor) :
  lines e <> [] -> index_ok e ->
  indexPosition (rune_target r) e = (c, e1) ->
  lines e1 = lines e /\ scan_pos e c /\ (runes c = 0 \/ runes c < r).
Proof.
  intros Hl [Hall Hhd] HI. unfold indexPosition in HI.
  set (e2 := match index e with [] => set_index e [originPos e] | _ => e end) in HI.
  assert (H2 : lines e2 = lines e /\ index e2 <> [] /\ Forall (scan_pos e) (index e2) /\
               runes (nth 0 (index e2) zeroPos) = 0).
  { subst e2. destruct (index e) as [| p0 ps] eqn:Hi; cbn [set_index index lines].
    - split; [reflexivity |]. split; [discriminate |]. split.
      + constructor; [apply originPos_scan_pos, Hl | constructor].
      + reflexivity.
    - rewrite Hi. split; [reflexivity |]. split; [discriminate |]. split; [exact Hall | exact Hhd]. }
  clearbody e2. destruct H2 as (Hl2 & Hne & Hall2 & Hhd2).
  injection HI as Hc He. subst e1. split; [exact Hl2 |].
  set (n := Z.of_nat (length (index e2))) in Hc.
  assert (Hn : 1 <= n) by (subst n; destruct (index e2); [congruence | cbn [length]; lia]).
  unfold sort_Search in Hc.
  set (f := fun i => positionGreaterOrEqual e2 (nth (Z.to_nat i) (index e2) zeroPos) (rune_target r)) in Hc.
  destruct (search_loop_spec f (Z.to_nat n) 0 n) as [Hk Hf]; [lia | left; reflexivity |].
  set (k := search_loop (Z.to_nat n) f 0 n) in Hc, Hk, Hf.
  clearbody k.
  assert (Hin : forall i, 0 <= i < n -> scan_pos e (nth (Z.to_nat i) (index e2) zeroPos)).
  { intros i Hi. eapply Forall_forall; [exact Hall2 |]. apply nth_In. subst n. lia. }
  destruct (k >? 0) eqn:Hk0.
  - apply Z.gtb_lt in Hk0. destruct Hf as [Hf | Hf]; [lia |].
    rewrite <- Hc. split; [apply Hin; lia |].
    right. subst f. cbv beta in Hf.
    rewrite ge_rune_target in Hf by (apply (scan_pos_runes_nonneg e), Hin; lia).
    rewrite Z.geb_leb in Hf. apply Z.leb_gt in Hf. exact Hf.
  - rewrite Z.gtb_ltb in Hk0. apply Z.ltb_ge in Hk0.
    replace k with 0 in Hc by lia. rewrite <- Hc. split; [apply Hin; lia | left; exact Hhd2].
Qed.

(** C2: for every rune offset [r], negative or past the end included,
    [closestPosition] with target [r] returns a position whose rune offset
    is [clamp r 0 length], for a layout with at least one line whose
    columns are the runes of the buffer and an index of scan positions
    (the invariant [closestPosition] maintains). The function is total:
    no input makes it fail. *)
Theorem closestPosition_runes_clamp (e : Editor) (r : Z) :
  lines e <> [] ->
  total_cols (lines e) = Z.of_nat (length (rr e)) ->
  index_ok e ->
  runes (fst (closestPosition (rune_target r) e)) = clamp r 0 (Z.of_nat (length (rr e))).
Proof.
  intros Hl Htot Hok. unfold closestPosition.
  destruct (indexPosition (rune_target r) e) as [c e1] eqn:HI.
  destruct (indexPosition_rune e r c e1 Hl Hok HI) as (Hl1 & (HY & HX & Hrc) & Hlt).
  pose proof (scan_lines_runes e1 r (skipn (S (Z.to_nat (Y (lineCol c)))) (lines e1))
                (nth_line e1 (Y (lineCol c))) c 0 (index e1)) as Hs.
  destruct (scan_lines _ _ _ _ _ _ _) as [c' idx] eqn:HS. cbn [fst] in *.
  rewrite Hs by (rewrite Hrc; unfold prefix_cols; pose proof (total_cols_nonneg (firstn (Z.to_nat (Y (lineCol c))) (lines e))); lia).
  unfold nth_line in *. rewrite Hl1. unfold nlines in HY.
  rewrite length_skipn.
  pose proof (total_cols_split (lines e) (Z.to_nat (Y (lineCol c))) ltac:(lia)) as Hsplit.
  unfold prefix_cols in Hrc. unfold alen in HX, Hsplit.
  pose proof (total_cols_nonneg (firstn (Z.to_nat (Y (lineCol c))) (lines e))).
  pose proof (total_cols_nonneg (skipn (S (Z.to_nat (Y (lineCol c)))) (lines e))).
  unfold clamp. lia.
Qed.

Lemma closestPosition_runes_clamp_witness :
  runes (fst (closestPosition (rune_target 1000) three_lines_editor)) = 150 /\
  runes (fst (closestPosition (rune_target (-5)) ab_cdef_editor)) = 0.
Proof.
  split.
  - apply (closestPosition_runes_clamp three_lines_editor 1000);
      [discriminate | vm_compute; reflexivity | split; [constructor | exact I]].
  - apply (closestPosition_runes_clamp ab_cdef_editor (-5));
      [discriminate | vm_compute; reflexivity | split; [constructor | exact I]].
Defined.

Lemma positionGreaterOrEqual_order_witness :
  positionGreaterOrEqual ab_cdef_editor (mkPos 0 0 (mkSP 0 0) 0 10) (mkPos 0 0 (mkSP 0 0) 40 10)
    = false /\
  positionGreaterOrEqual ab_cdef_editor (mkPos 0 0 (mkSP 0 0) 0 10) (mkPos 0 0 (mkSP 1 1) 0 0)
    = false.
Proof.
  destruct (positionGreaterOrEqual_order ab_cdef_editor) as [H1 H2]. split.
  - destruct (H2 (mkPos 0 0 (mkSP 0 0) 0 10) 40 10) as [H _].
    + intros H; inversion H.
    + intros [H _]; vm_compute in H; discriminate.
    + intros [_ H]; vm_compute in H; discriminate.
    + rewrite H. vm_compute. reflexivity.
  - rewrite (H1 (mkPos 0 0 (mkSP 0 0) 0 10) 1 1) by (intros H; inversion H).
    vm_compute. reflexivity.
Defined.

(* ================================================================== *)
(** * The mask filter *)

Lemma encode_rune_length (r : Z) : (1 <= length (encode_rune r) <= 4)%nat.
Proof.
  unfold encode_rune.
  set (r' := if (r <? 0) || ((55296 <=? r) && (r <=? 57343)) || (1114111 <? r)
             then RuneError else r).
  destruct (r' <=? 127); [cbn; lia |].
  destruct (r' <=? 2047); [cbn; lia |].
  destruct (r' <=? 65535); cbn; lia.
Qed.

Lemma mask_read_loop_spec :
  forall fuel blen m, mr_mask m <> [] -> blen <= Z.of_nat fuel ->
  let '(out, err, m') := mask_read_loop fuel blen m in
  out ++ mask_stream m' = mask_stream m /\ mr_mask m' = mr_mask m /\
  (err = true -> mask_stream m' = []) /\
  (err = false -> Z.of_nat (length out) = Z.max 0 blen).
Proof.
  induction fuel as [| fuel IH]; intros blen m Hm Hf; cbn [mask_read_loop].
  - split; [reflexivity | split; [reflexivity | split; [discriminate | intros _; cbn; lia]]].
  - destruct (blen >? 0) eqn:Hb;
      [| split; [reflexivity | split; [reflexivity | split; [discriminate | intros _; cbn; lia]]]].
    apply Z.gtb_lt in Hb.
    destruct (mr_overflow m) as [| o os] eqn:Ho.
    + destruct (mr_rr m) as [| r t] eqn:Hr.
      * split; [reflexivity | split; [reflexivity | split; [| discriminate]]].
        intros _. unfold mask_stream. rewrite Ho, Hr. reflexivity.
      * set (R := if r =? 10 then [10] else mr_mask m).
        assert (HR : (1 <= length R)%nat).
        { subst R. destruct (r =? 10); [cbn; lia | destruct (mr_mask m); [congruence | cbn; lia]]. }
        set (nn := Z.min blen (Z.of_nat (length R))).
        cbn [mr_rr mr_mask].
        specialize (IH (blen - nn) (mkMR t (mr_mask m) (skipn (Z.to_nat nn) R))).
        destruct (mask_read_loop fuel (blen - nn) _) as [[out err] m'].
        destruct IH as (H1 & H2 & H3 & H4); [exact Hm | lia |].
        cbn [mr_mask] in H2.
        split; [| split; [exact H2 | split; [exact H3 |]]].
        -- rewrite <- app_assoc, H1. unfold mask_stream. cbn [mr_overflow mr_rr mr_mask].
           rewrite Ho, Hr. cbn [flat_map app]. rewrite app_assoc, firstn_skipn. reflexivity.
        -- intros He. rewrite length_app, Nat2Z.inj_add, (H4 He), length_firstn. lia.
    + set (R := o :: os).
      set (nn := Z.min blen (Z.of_nat (length R))).
      specialize (IH (blen - nn) (mkMR (mr_rr m) (mr_mask m) (skipn (Z.to_nat nn) R))).
      destruct (mask_read_loop fuel (blen - nn) _) as [[out err] m'].
      destruct IH as (H1 & H2 & H3 & H4); [exact Hm | subst nn R; cbn [length]; lia |].
      cbn [mr_mask] in H2.
      split; [| split; [exact H2 | split; [exact H3 |]]].
      * rewrite <- app_assoc, H1. unfold mask_stream. cbn [mr_overflow mr_rr mr_mask].
        rewrite Ho. rewrite app_assoc, firstn_skipn. reflexivity.
      * intros He. rewrite length_app, Nat2Z.inj_add, (H4 He), length_firstn.
        subst nn R. cbn [length]. lia.
Qed.

Lemma mask_read_eof_overflow (m : maskReader) (k : Z) (out : list Z) (m' : maskReader) :
  mr_mask m <> [] -> 0 <= k ->
  maskReader_Read m k = (out, true, m') -> mr_overflow m' = [].
Proof.
  intros Hm Hk HR. unfold maskReader_Read in HR.
  pose proof (mask_read_loop_spec (Z.to_nat k) k m Hm ltac:(lia)) as H.
  rewrite HR in H. destruct H as (_ & _ & H & _).
  specialize (H eq_refl). unfold mask_stream in H.
  apply app_eq_nil in H. apply H.
Qed.

Lemma read_all_stream (k : Z) :
  forall fuel m, 0 < k -> mr_mask m <> [] ->
  Z.of_nat (length (mask_stream m)) < k * Z.of_nat fuel ->
  read_all fuel k m = mask_stream m.
Proof.
  induction fuel as [| fuel IH]; intros m Hk Hm Hlen; [lia |].
  cbn [read_all]. unfold maskReader_Read.
  pose proof (mask_read_loop_spec (Z.to_nat k) k m Hm ltac:(lia)) as H.
  destruct (mask_read_loop _ _ _) as [[out err] m'].
  destruct H as (H1 & H2 & H3 & H4).
  destruct err.
  - rewrite <- H1, (H3 eq_refl), app_nil_r. reflexivity.
  - rewrite <- H1. f_equal. apply IH; [exact Hk | rewrite H2; exact Hm |].
    rewrite <- H1, length_app, Nat2Z.inj_add, (H4 eq_refl) in Hlen. lia.
Qed.

Lemma flat_map_length_le (f : Z -> list Z) (l : list Z) (n : nat) :
  (forall r, (length (f r) <= n)%nat) -> (length (flat_map f l) <= n * length l)%nat.
Proof.
  intros Hf. induction l as [| r l IH]; cbn [flat_map length]; [lia |].
  rewrite length_app. specialize (Hf r). lia.
Qed.

Lemma closestPosition_rr (pos : combinedPos) (e : Editor) :
  rr (snd (closestPosition pos e)) = rr e.
Proof.
  unfold closestPosition, indexPosition.
  destruct (index e); cbn zeta;
  match goal with |- context [scan_lines ?a ?b ?c ?d ?f ?g ?h] =>
    destruct (scan_lines a b c d f g h) end; reflexivity.
Qed.

Lemma resolve_all_rr : forall ps e, rr (snd (resolve_all ps e)) = rr e.
Proof.
  induction ps as [| p ps IH]; intros e; [reflexivity |].
  cbn [resolve_all]. unfold bind, ret.
  destruct (closestPosition _ e) as [p' e1] eqn:H1.
  destruct (resolve_all ps e1) as [ps' e2] eqn:H2. cbn [snd].
  rewrite <- (closestPosition_rr (rune_target (runes p)) e), H1. cbn [snd].
  rewrite <- (IH e1), H2. reflexivity.
Qed.

Lemma makeValid_rr (ps : list combinedPos) (e : Editor) :
  rr (snd (makeValid ps e)) = rr e.
Proof.
  unfold makeValid, makeValidCaret, bind, get, ret, modify.
  destruct (valid e); [reflexivity |].
  set (e0 := set_lines e (layoutText e)).
  assert (H0 : rr e0 = rr e) by reflexivity. clearbody e0.
  destruct (resolve_all ps e0) as [ps' e1] eqn:H1.
  assert (H1' : rr e1 = rr e) by (rewrite <- H0, <- (resolve_all_rr ps e0), H1; reflexivity).
  destruct (closestPosition _ e1) as [s e2] eqn:H2.
  assert (H2' : rr e2 = rr e) by (rewrite <- H1', <- (closestPosition_rr (rune_target (runes (caret_start e1))) e1), H2;
        reflexivity).
  destruct (closestPosition _ (set_start e2 s)) as [t e3] eqn:H3.
  assert (H3' : rr e3 = rr e)
    by (rewrite <- H2'; change (rr e2) with (rr (set_start e2 s));
        rewrite <- (closestPosition_rr (rune_target (runes (caret_end (set_start e2 s))))
                                                 (set_start e2 s)), H3; reflexivity).
  exact H3'.
Qed.

(** C8: with a mask rune set, the byte stream handed to the shaper is the
    buffer with every rune but a newline replaced by the encoded mask
    rune, newlines passed through; the lines are laid out from that
    stream; and making the layout valid leaves the buffer, hence [Text],
    unmasked and unchanged. *)
Theorem layoutText_masked (e : Editor) (ps : list combinedPos) :
  Mask e <> 0 ->
  layout_stream e =
    flat_map (fun r => if r =? 10 then [10] else encode_rune (Mask e)) (rr e) /\
  (forall sh, shaper e = Some sh ->
     layoutText e =
       sh (flat_map (fun r => if r =? 10 then [10] else encode_rune (Mask e)) (rr e))) /\
  rr (snd (makeValid ps e)) = rr e /\
  Text (snd (makeValid ps e)) = Text e.
Proof.
  intros Hmask.
  assert (Hs : layout_stream e =
            flat_map (fun r => if r =? 10 then [10] else encode_rune (Mask e)) (rr e)).
  { unfold layout_stream. apply Z.eqb_neq in Hmask. rewrite Hmask.
    assert (Hm : mr_mask (maskReader_Reset (rr e) (Mask e)) <> []).
    { cbn [maskReader_Reset mr_mask]. pose proof (encode_rune_length (Mask e)).
      destruct (encode_rune (Mask e)); [cbn in *; lia | discriminate]. }
    rewrite read_all_stream; [reflexivity | lia | exact Hm |].
    unfold mask_stream. cbn [maskReader_Reset mr_overflow mr_rr mr_mask app].
    pose proof (flat_map_length_le (repl (encode_rune (Mask e))) (rr e) 4) as Hle.
    assert (Hr : forall r, (length (repl (encode_rune (Mask e)) r) <= 4)%nat).
    { intros r. unfold repl. destruct (r =? 10); [cbn; lia | apply encode_rune_length]. }
    specialize (Hle Hr). lia. }
  split; [exact Hs |]. split.
  - intros sh Hsh. unfold layoutText. rewrite Hsh, Hs. reflexivity.
  - rewrite makeValid_rr. split; [reflexivity |]. unfold Text. rewrite makeValid_rr. reflexivity.
Qed.

Lemma layoutText_masked_witness :
  layout_stream masked_editor = [226;128;162;10;226;128;162] /\
  Text (snd (makeValid [] masked_editor)) = [97;10;98].
Proof.
  destruct (layoutText_masked masked_editor [] ltac:(discriminate)) as (H1 & _ & _ & H4).
  split; [rewrite H1; vm_compute; reflexivity | rewrite H4; vm_compute; reflexivity].
Defined.

(* ================================================================== *)
(** * The buffer at consistent offsets *)

Lemma rune_len_range (r : Z) : 1 <= rune_len r <= 4.
Proof.
  unfold rune_len.
  destruct (r <? 0); [lia |]. destruct (r <=? 127); [lia |].
  destruct (r <=? 2047); [lia |]. destruct ((55296 <=? r) && (r <=? 57343)); [lia |].
  destruct (r <=? 65535); [lia |]. destruct (r <=? 1114111); lia.
Qed.

Lemma bytes_len_ge_length (l : list Z) : Z.of_nat (length l) <= bytes_len l.
Proof.
  induction l as [| r l IH]; cbn [bytes_len length]; [lia |].
  pose proof (rune_len_range r). lia.
Qed.

Lemma bytes_len_app (l1 l2 : list Z) : bytes_len (l1 ++ l2) = bytes_len l1 + bytes_len l2.
Proof. induction l1 as [| r l1 IH]; cbn [bytes_len app]; lia. Qed.

Lemma bytes_firstn_S (b : list Z) :
  forall k, (k < length b)%nat ->
  bytes_len (firstn (S k) b) = bytes_len (firstn k b) + rune_len (nth k b 0).
Proof.
  induction b as [| r b IH]; intros k Hk; cbn [length] in Hk; [lia |].
  destruct k as [| k].
  - cbn. lia.
  - change (firstn (S (S k)) (r :: b)) with (r :: firstn (S k) b).
    change (firstn (S k) (r :: b)) with (r :: firstn k b).
    change (nth (S k) (r :: b) 0) with (nth k b 0).
    cbn [bytes_len]. rewrite IH by lia. lia.
Qed.

Lemma bytes_firstn_lt (b : list Z) :
  forall k, (k < length b)%nat -> bytes_len (firstn k b) < bytes_len b.
Proof.
  induction b as [| r b IH]; intros k Hk; cbn [length] in Hk; [lia |].
  pose proof (rune_len_range r).
  destruct k as [| k]; cbn [firstn bytes_len].
  - pose proof (bytes_len_ge_length b). lia.
  - specialize (IH k ltac:(lia)). lia.
Qed.

Lemma runeAt_firstn (b : list Z) :
  forall k, (k < length b)%nat ->
  snd (runeAt b (bytes_len (firstn k b))) = rune_len (nth k b 0).
Proof.
  induction b as [| r b IH]; intros k Hk; cbn [length] in Hk; [lia |].
  destruct k as [| k]; [reflexivity |].
  cbn [firstn bytes_len runeAt nth].
  pose proof (rune_len_range r) as Hr1.
  pose proof (bytes_len_ge_length (firstn k b)) as Hr2.
  destruct (rune_len r + bytes_len (firstn k b) <=? 0) eqn:H0; [apply Z.leb_le in H0; lia |].
  replace (rune_len r + bytes_len (firstn k b) - rune_len r) with (bytes_len (firstn k b)) by lia.
  apply IH. lia.
Qed.

Lemma runeBefore_aux_firstn (b : list Z) :
  forall prev k, (1 <= k <= length b)%nat ->
  snd (runeBefore_aux prev b (bytes_len (firstn k b))) = rune_len (nth (k - 1) b 0).
Proof.
  induction b as [| r b IH]; intros prev k Hk; cbn [length] in Hk; [lia |].
  destruct k as [| k]; [lia |].
  cbn [firstn bytes_len runeBefore_aux].
  pose proof (rune_len_range r) as Hr1.
  pose proof (bytes_len_ge_length (firstn k b)) as Hr2.
  destruct (rune_len r + bytes_len (firstn k b) <=? 0) eqn:H0; [apply Z.leb_le in H0; lia |].
  replace (rune_len r + bytes_len (firstn k b) - rune_len r) with (bytes_len (firstn k b)) by lia.
  destruct k as [| k].
  - cbn. destruct b; reflexivity.
  - rewrite IH by lia. replace (S (S k) - 1)%nat with (S k) by lia.
    replace (S k - 1)%nat with k by lia. reflexivity.
Qed.

Lemma split_at_firstn (b : list Z) :
  forall k, (k <= length b)%nat ->
  split_at_ofs b (bytes_len (firstn k b)) = (firstn k b, skipn k b).
Proof.
  induction b as [| r b IH]; intros k Hk.
  - destruct k; reflexivity.
  - destruct k as [| k]; [reflexivity |].
    cbn [length] in Hk. cbn [firstn skipn bytes_len split_at_ofs].
    pose proof (rune_len_range r) as Hr1.
    pose proof (bytes_len_ge_length (firstn k b)) as Hr2.
    destruct (rune_len r + bytes_len (firstn k b) <=? 0) eqn:H0; [apply Z.leb_le in H0; lia |].
    replace (rune_len r + bytes_len (firstn k b) - rune_len r) with (bytes_len (firstn k b)) by lia.
    rewrite IH by lia. reflexivity.
Qed.

Lemma at_rune_consistent (b : editBuffer) (p : combinedPos) (k : Z) :
  0 <= k <= Z.of_nat (length b) -> pos_consistent b (at_rune b p k).
Proof. intros Hk. split; [exact Hk | reflexivity]. Qed.

Lemma at_rune_self (b : editBuffer) (p : combinedPos) :
  pos_consistent b p -> at_rune b p (runes p) = p.
Proof.
  intros [_ Ho]. destruct p as [o r lc px py]. unfold at_rune, with_ofs_runes.
  cbn [runes ofs lineCol x y] in *. rewrite Ho. reflexivity.
Qed.

Lemma ofs_pos_runes (b : editBuffer) (p : combinedPos) :
  pos_consistent b p -> 0 < runes p -> 0 < ofs p.
Proof.
  intros [Hk Ho] Hp. rewrite Ho.
  pose proof (bytes_len_ge_length (firstn (Z.to_nat (runes p)) b)).
  rewrite length_firstn in H. lia.
Qed.

Lemma seek_back_spec (b : editBuffer) (target : Z) :
  forall fuel p, pos_consistent b p -> runes p - target <= Z.of_nat fuel ->
  seek_back fuel b p target =
  at_rune b p (if runes p >? target then Z.max target 0 else runes p).
Proof.
  induction fuel as [| fuel IH]; intros p Hc Hf.
  - cbn [seek_back]. replace (runes p >? target) with false by lia.
    symmetry. apply at_rune_self, Hc.
  - cbn [seek_back].
    destruct (runes p >? target) eqn:Ht; cbn [andb];
      [| symmetry; apply at_rune_self, Hc].
    apply Z.gtb_lt in Ht.
    destruct (ofs p >? 0) eqn:Ho0.
    + apply Z.gtb_lt in Ho0.
      destruct Hc as [Hk Ho].
      assert (Hp : 0 < runes p).
      { destruct (Z.eq_dec (runes p) 0) as [H0 | H0]; [| lia].
        rewrite Ho, H0 in Ho0. cbn in Ho0. lia. }
      set (j := Z.to_nat (runes p - 1)).
      assert (Hj : Z.to_nat (runes p) = S j) by (subst j; lia).
      assert (Hs : snd (runeBefore b (ofs p)) = rune_len (nth j b 0)).
      { rewrite Ho, Hj. unfold runeBefore. rewrite runeBefore_aux_firstn by lia.
        replace (S j - 1)%nat with j by lia. reflexivity. }
      assert (Hb : ofs p - snd (runeBefore b (ofs p)) = bytes_len (firstn j b)).
      { rewrite Hs, Ho, Hj, bytes_firstn_S by lia. lia. }
      rewrite Hb, IH.
      * unfold at_rune, with_ofs_runes. cbn [runes lineCol x y].
        destruct (runes p - 1 >? target) eqn:Ht'; [reflexivity |].
        replace (Z.max target 0) with (runes p - 1) by lia. reflexivity.
      * unfold with_ofs_runes; split; cbn [runes ofs]; [lia |]. subst j. reflexivity.
      * unfold with_ofs_runes; cbn [runes]. lia.
    + destruct (Z.eq_dec (runes p) 0) as [H0 | H0].
      * replace (Z.max target 0) with (runes p) by lia.
        symmetry. apply at_rune_self, Hc.
      * pose proof (ofs_pos_runes b p Hc ltac:(destruct Hc; lia)). lia.
Qed.

Lemma seek_fwd_spec (b : editBuffer) (target : Z) :
  forall fuel p, pos_consistent b p -> target - runes p <= Z.of_nat fuel ->
  seek_fwd fuel b p target =
  at_rune b p (if runes p <? target then Z.min target (Z.of_nat (length b)) else runes p).
Proof.
  induction fuel as [| fuel IH]; intros p Hc Hf.
  - cbn [seek_fwd]. replace (runes p <? target) with false by lia.
    symmetry. apply at_rune_self, Hc.
  - cbn [seek_fwd].
    destruct (runes p <? target) eqn:Ht; cbn [andb];
      [| symmetry; apply at_rune_self, Hc].
    apply Z.ltb_lt in Ht.
    destruct Hc as [Hk Ho].
    destruct (Z.eq_dec (runes p) (Z.of_nat (length b))) as [Hend | Hend].
    + assert (Hl : (ofs p <? buf_len b) = false).
      { apply Z.ltb_ge. rewrite Ho, Hend, Nat2Z.id, firstn_all. unfold buf_len. lia. }
      rewrite Hl. replace (Z.min target (Z.of_nat (length b))) with (runes p) by lia.
      symmetry. apply at_rune_self. split; assumption.
    + set (j := Z.to_nat (runes p)).
      assert (Hjl : (j < length b)%nat) by (subst j; lia).
      assert (Hl : (ofs p <? buf_len b) = true).
      { apply Z.ltb_lt. rewrite Ho. apply bytes_firstn_lt. exact Hjl. }
      rewrite Hl.
      assert (Hs : ofs p + snd (runeAt b (ofs p)) = bytes_len (firstn (Z.to_nat (runes p + 1)) b)).
      { rewrite Ho. fold j. rewrite runeAt_firstn by exact Hjl.
        replace (Z.to_nat (runes p + 1)) with (S j) by (subst j; lia).
        rewrite bytes_firstn_S by exact Hjl. reflexivity. }
      rewrite Hs, IH.
      * unfold at_rune, with_ofs_runes. cbn [runes lineCol x y].
        destruct (runes p + 1 <? target) eqn:Ht'; [reflexivity |].
        replace (Z.min target (Z.of_nat (length b))) with (runes p + 1) by lia. reflexivity.
      * unfold with_ofs_runes; split; cbn [runes ofs]; [lia | reflexivity].
      * unfold with_ofs_runes; cbn [runes]. lia.
Qed.

Lemma seek_spec (b : editBuffer) (hint : combinedPos) (r : Z) :
  pos_consistent b hint ->
  seek b hint r = at_rune b hint (clamp r 0 (Z.of_nat (length b))).
Proof.
  intros Hc. unfold seek.
  rewrite (seek_back_spec b r (Z.to_nat (runes hint - r)) hint Hc) by lia.
  set (k := if runes hint >? r then Z.max r 0 else runes hint).
  assert (Hk : 0 <= k <= Z.of_nat (length b)) by (destruct Hc; subst k; destruct (runes hint >? r) eqn:E; lia).
  rewrite (seek_fwd_spec b r (Z.to_nat (r - runes (at_rune b hint k))) (at_rune b hint k))
    by (try apply at_rune_consistent; lia).
  assert (Hr : runes (at_rune b hint k) = k) by reflexivity.
  rewrite Hr.
  assert (Hkk : (if k <? r then Z.min r (Z.of_nat (length b)) else k) =
                clamp r 0 (Z.of_nat (length b))).
  { unfold clamp. destruct Hc as [Hc _]. subst k.
    destruct (runes hint >? r) eqn:E1; destruct (_ <? r) eqn:E2; lia. }
  rewrite Hkk. reflexivity.
Qed.

Lemma replace_buffer (b : editBuffer) (a bnd : Z) (s : list Z) :
  0 <= a <= bnd -> bnd <= Z.of_nat (length b) ->
  prepend (deleteRunes b (bytes_len (firstn (Z.to_nat a) b)) (bnd - a))
    (bytes_len (firstn (Z.to_nat a) b)) s =
  firstn (Z.to_nat a) b ++ s ++ skipn (Z.to_nat bnd) b.
Proof.
  intros Hab Hb. unfold deleteRunes.
  rewrite split_at_firstn by lia.
  replace (0 <=? bnd - a) with true by lia.
  rewrite skipn_skipn. replace (Z.to_nat (bnd - a) + Z.to_nat a)%nat with (Z.to_nat bnd) by lia.
  unfold prepend.
  set (pre := firstn (Z.to_nat a) b).
  assert (Hpre : length pre = Z.to_nat a) by (subst pre; rewrite length_firstn; lia).
  replace (bytes_len pre) with (bytes_len (firstn (Z.to_nat a) (pre ++ skipn (Z.to_nat bnd) b))).
  - rewrite split_at_firstn by (rewrite length_app; lia).
    rewrite firstn_app, Hpre, Nat.sub_diag, firstn_O, app_nil_r, firstn_all2 by lia.
    rewrite skipn_app, Hpre, Nat.sub_diag, skipn_O, skipn_all2 by lia. reflexivity.
  - rewrite firstn_app, Hpre, Nat.sub_diag, firstn_O, app_nil_r, firstn_all2 by lia. reflexivity.
Qed.

Lemma replace_sorted (start end_ : Z) (s : list Z) (e : Editor) :
  replace start end_ s e = replace (Z.min start end_) (Z.max start end_) s e.
Proof.
  unfold replace. cbv beta.
  destruct (start >? end_) eqn:E.
  - rewrite Z.min_r, Z.max_l by lia. replace (end_ >? start) with false by lia. reflexivity.
  - rewrite Z.min_l, Z.max_r by lia. rewrite E. reflexivity.
Qed.

(** C1 (amended): [replace(start, end, s)] on a buffer of [n] code points,
    with caret positions that agree with the buffer, replaces the code
    points between [a = clamp (min start end) 0 n] and
    [b = clamp (max start end) 0 n] by [s] (newlines turned into spaces in
    single-line mode) and re-maps each caret offset [p] with [newEnd = a +
    |s|]: [p <= b] becomes [min p newEnd] (an offset in the replaced range
    moves to the insertion end only when it lies past it) and [p > b]
    shifts by [newEnd - b]; the new offsets agree with the new buffer, and
    the index is emptied and the layout marked invalid. *)
Theorem replace_remap (e : Editor) (start end_ : Z) (s : list Z) :
  pos_consistent (rr e) (caret_start e) ->
  pos_consistent (rr e) (caret_end e) ->
  let n := Z.of_nat (length (rr e)) in
  let a := clamp (Z.min start end_) 0 n in
  let bnd := clamp (Z.max start end_) 0 n in
  let s' := if SingleLine e then map (fun r => if r =? 10 then 32 else r) s else s in
  let newEnd := a + len_runes s' in
  let e' := snd (replace start end_ s e) in
  rr e' = firstn (Z.to_nat a) (rr e) ++ s' ++ skipn (Z.to_nat bnd) (rr e) /\
  runes (caret_start e') = remap bnd newEnd (runes (caret_start e)) /\
  runes (caret_end e') = remap bnd newEnd (runes (caret_end e)) /\
  pos_consistent (rr e') (caret_start e') /\
  pos_consistent (rr e') (caret_end e') /\
  index e' = [] /\ valid e' = false.
Proof.
  intros Hs He n a bnd s' newEnd e'. subst e'.
  rewrite replace_sorted. unfold replace.
  replace (Z.min start end_ >? Z.max start end_) with false by lia.
  cbv beta iota zeta. fold s'.
  rewrite !seek_spec by assumption. fold n. fold a. fold bnd.
  assert (Hab : 0 <= a <= bnd /\ bnd <= n) by (subst a bnd; unfold clamp; lia).
  change (ofs (at_rune (rr e) (caret_start e) a)) with (bytes_len (firstn (Z.to_nat a) (rr e))).
  change (runes (at_rune (rr e) (caret_end e) bnd)) with bnd.
  change (runes (at_rune (rr e) (caret_start e) a)) with a.
  rewrite replace_buffer by (subst n; lia).
  set (b' := firstn (Z.to_nat a) (rr e) ++ s' ++ skipn (Z.to_nat bnd) (rr e)).
  assert (Hlen : Z.of_nat (length b') = n - bnd + a + len_runes s').
  { subst b'. rewrite !length_app, length_firstn, length_skipn. unfold len_runes. subst n. lia. }
  assert (Hpre : firstn (Z.to_nat a) b' = firstn (Z.to_nat a) (rr e)).
  { subst b'. rewrite firstn_app, length_firstn, Nat.min_l by (subst n; lia).
    rewrite Nat.sub_diag, firstn_O, app_nil_r, firstn_firstn, Nat.min_id. reflexivity. }
  assert (Hst : at_rune (rr e) (caret_start e) a = at_rune b' (caret_start e) a).
  { unfold at_rune. rewrite Hpre. reflexivity. }
  rewrite Hst.
  assert (Hcst : pos_consistent b' (at_rune b' (caret_start e) a)).
  { apply at_rune_consistent. subst newEnd. unfold len_runes in *. lia. }
  assert (Hadj : forall p, pos_consistent (rr e) p ->
    let r := if (newEnd <? runes p) && (runes p <=? bnd) then newEnd
             else if bnd <? runes p then runes p + (newEnd - bnd) else runes p in
    r = remap bnd newEnd (runes p) /\ 0 <= r <= Z.of_nat (length b')).
  { intros p [Hp _] r. subst r. unfold remap. fold n in Hp. unfold len_runes in *.
    subst newEnd.
    destruct (runes p <=? bnd) eqn:E1; destruct (_ <? runes p) eqn:E2; cbn [andb];
      try destruct (bnd <? runes p) eqn:E3; split; lia. }
  cbn [set_rr set_start set_end set_valid set_index invalidate modify snd
       rr caret_start caret_end index valid].
  destruct (Hadj (caret_start e) Hs) as [H1 H2].
  destruct (Hadj (caret_end e) He) as [H3 H4].
  rewrite !seek_spec by exact Hcst.
  change (a + len_runes s') with newEnd.
  rewrite H1, H3.
  split; [reflexivity |].
  split; [unfold clamp; cbn [runes at_rune with_ofs_runes]; lia |].
  split; [unfold clamp; cbn [runes at_rune with_ofs_runes]; lia |].
  split; [apply at_rune_consistent; unfold clamp; lia |].
  split; [apply at_rune_consistent; unfold clamp; lia |].
  split; reflexivity.
Qed.

Lemma replace_remap_witness :
  let e' := snd (replace 4 6 [] (plain_editor ten_runes (mkPos 2 2 (mkSP 2 0) 0 0)
                                   (mkPos 8 8 (mkSP 8 0) 0 0))) in
  runes (caret_start e') = 2 /\ runes (caret_end e') = 6.
Proof.
  destruct (replace_remap (plain_editor ten_runes (mkPos 2 2 (mkSP 2 0) 0 0)
                             (mkPos 8 8 (mkSP 8 0) 0 0)) 4 6 [])
    as (_ & H1 & H2 & _).
  - split; [cbn; lia | reflexivity].
  - split; [cbn; lia | reflexivity].
  - cbv zeta. rewrite H1, H2. split; reflexivity.
Defined.

(* ================================================================== *)
(** * Line moves *)

Lemma fsum_S (l : list Z) :
  forall j, (j < length l)%nat ->
  fold_right Z.add 0 (firstn (S j) l) = fold_right Z.add 0 (firstn j l) + nth j l 0.
Proof.
  induction l as [| a l IH]; intros j Hj; cbn [length] in Hj; [lia |].
  destruct j as [| j]; [cbn; lia |].
  change (firstn (S (S j)) (a :: l)) with (a :: firstn (S j) l).
  change (firstn (S j) (a :: l)) with (a :: firstn j l).
  cbn [fold_right nth]. rewrite IH by lia. lia.
Qed.

Lemma fsum_mono (l : list Z) :
  Forall (fun a => 0 <= a) l ->
  forall j j', (j <= j')%nat ->
  fold_right Z.add 0 (firstn j l) <= fold_right Z.add 0 (firstn j' l).
Proof.
  induction l as [| a l IH]; intros Hl j j' Hjj.
  - rewrite !firstn_nil. lia.
  - inversion Hl as [| ? ? Ha Hl']; subst.
    destruct j as [| j]; destruct j' as [| j']; cbn [firstn fold_right]; try lia.
    + pose proof (IH Hl' 0%nat j' ltac:(lia)). cbn [firstn fold_right] in H. lia.
    + pose proof (IH Hl' j j' ltac:(lia)). lia.
Qed.

Lemma col_loop_spec (b : editBuffer) (tx : Z) :
  forall advs pos, exists k, (k <= length advs)%nat /\
  let p := col_loop advs b tx pos in
  let fs j := fold_right Z.add 0 (firstn j advs) in
  X (lineCol p) = X (lineCol pos) + Z.of_nat k /\ Y (lineCol p) = Y (lineCol pos) /\
  x p = x pos + fs k /\
  (forall j, (j < k)%nat -> x pos + fs j < tx /\ x pos + fs (S j) - tx < tx - (x pos + fs j)) /\
  ((k < length advs)%nat ->
     x pos + fs k >= tx \/ x pos + fs k + nth k advs 0 - tx >= tx - (x pos + fs k)).
Proof.
  induction advs as [| adv advs IH]; intros pos.
  - exists 0%nat. cbn. repeat split; intros; lia.
  - cbn [col_loop].
    destruct (x pos >=? tx) eqn:E1.
    { exists 0%nat. cbn. repeat split; intros; lia. }
    destruct (x pos + adv - tx >=? tx - x pos) eqn:E2.
    { exists 0%nat. cbn. repeat split; intros; lia. }
    set (pos' := mkPos (ofs pos + snd (runeAt b (ofs pos))) (runes pos + 1)
                   (mkSP (X (lineCol pos) + 1) (Y (lineCol pos))) (x pos + adv) (y pos)).
    destruct (IH pos') as (k & Hk & HX & HY & Hx & Hpass & Hstop).
    exists (S k). split; [cbn [length]; lia |].
    cbv zeta in *. subst pos'. cbn [lineCol X Y x] in HX, HY, Hx, Hpass, Hstop.
    split; [rewrite HX; lia |]. split; [exact HY |].
    split; [rewrite Hx; cbn [firstn fold_right]; lia |].
    split.
    + intros j Hj. destruct j as [| j].
      * cbn [firstn fold_right]. lia.
      * destruct (Hpass j ltac:(lia)) as [H1 H2].
        change (firstn (S (S j)) (adv :: advs)) with (adv :: firstn (S j) advs).
        change (firstn (S j) (adv :: advs)) with (adv :: firstn j advs).
        cbn [fold_right]. lia.
    + intros Hlt. cbn [length] in Hlt. destruct (Hstop ltac:(lia)) as [H | H];
        change (firstn (S k) (adv :: advs)) with (adv :: firstn k advs);
        change (nth (S k) (adv :: advs) 0) with (nth k advs 0);
        cbn [fold_right]; lia.
Qed.

Lemma closest_of_stop (l : list Z) (x0 tx : Z) (k : nat) :
  let fs j := fold_right Z.add 0 (firstn j l) in
  Forall (fun a => 0 <= a) l -> (k <= length l)%nat ->
  (forall j, (j < k)%nat -> x0 + fs j < tx /\ x0 + fs (S j) - tx < tx - (x0 + fs j)) ->
  ((k < length l)%nat -> x0 + fs k >= tx \/ x0 + fs k + nth k l 0 - tx >= tx - (x0 + fs k)) ->
  (forall c, (c <= length l)%nat -> Z.abs (x0 + fs k - tx) <= Z.abs (x0 + fs c - tx)) /\
  (forall c, (c < k)%nat ->
     Z.abs (x0 + fs k - tx) < Z.abs (x0 + fs c - tx) \/ fs c = fs k).
Proof.
  intros fs Hnn Hk Hpass Hstop.
  assert (Hmono : forall j j', (j <= j')%nat -> fs j <= fs j')
    by (intros; subst fs; apply fsum_mono; assumption).
  assert (Hbelow : forall c, (c < k)%nat ->
            x0 + fs c < tx /\ x0 + fs k - tx < tx - (x0 + fs c)).
  { intros c Hc. destruct k as [| k']; [lia |].
    destruct (Hpass k' ltac:(lia)) as [H1 H2].
    pose proof (Hmono c k' ltac:(lia)). split; lia. }
  split.
  - intros c Hc.
    destruct (Nat.lt_ge_cases c k) as [Hck | Hck].
    + destruct (Hbelow c Hck) as [H1 H2]. pose proof (Hmono c k ltac:(lia)).
      destruct (Z.abs_spec (x0 + fs k - tx)) as [[A1 A2] | [A1 A2]];
      destruct (Z.abs_spec (x0 + fs c - tx)) as [[B1 B2] | [B1 B2]]; lia.
    + destruct (Nat.eq_dec c k) as [-> | Hne]; [lia |].
      assert (Hkl : (k < length l)%nat) by lia.
      pose proof (Hmono (S k) c ltac:(lia)) as Hm.
      assert (Hs : fs (S k) = fs k + nth k l 0) by (subst fs; apply fsum_S; exact Hkl).
      pose proof (Hmono k (S k) ltac:(lia)).
      destruct (Hstop Hkl) as [Hs1 | Hs1];
      destruct (Z.abs_spec (x0 + fs k - tx)) as [[A1 A2] | [A1 A2]];
      destruct (Z.abs_spec (x0 + fs c - tx)) as [[B1 B2] | [B1 B2]]; lia.
  - intros c Hc. destruct (Hbelow c Hc) as [H1 H2]. pose proof (Hmono c k ltac:(lia)).
    destruct (Z.eq_dec (fs c) (fs k)) as [Heq | Hne]; [right; exact Heq | left].
    destruct (Z.abs_spec (x0 + fs k - tx)) as [[A1 A2] | [A1 A2]];
    destruct (Z.abs_spec (x0 + fs c - tx)) as [[B1 B2] | [B1 B2]]; lia.
Qed.

Lemma makeValid_id (ps : list combinedPos) (e : Editor) :
  valid e = true -> makeValid ps e = (ps, e).
Proof. intros Hv. unfold makeValid, bind, get, ret. rewrite Hv. reflexivity. Qed.

Lemma fwd_cols_Y (b : editBuffer) (l : Line) :
  forall n i pos, Y (lineCol (fwd_cols n i b l pos)) = Y (lineCol pos).
Proof. induction n as [| n IH]; intros i pos; [reflexivity |]. cbn [fwd_cols]. rewrite IH. reflexivity. Qed.

Lemma movePosToEnd_valid (pos : combinedPos) (e : Editor) :
  valid e = true ->
  snd (movePosToEnd pos e) = e /\ Y (lineCol (fst (fst (movePosToEnd pos e)))) = Y (lineCol pos).
Proof.
  intros Hv. unfold movePosToEnd, bind, get, ret. rewrite makeValid_id by exact Hv.
  cbn [hd fst snd]. split; [reflexivity | apply fwd_cols_Y].
Qed.

Lemma movePosToStart_valid (pos : combinedPos) (e : Editor) :
  valid e = true ->
  snd (movePosToStart pos e) = e /\ X (lineCol (fst (movePosToStart pos e))) = 0 /\
  Y (lineCol (fst (movePosToStart pos e))) = Y (lineCol pos).
Proof.
  intros Hv. unfold movePosToStart, bind, get, ret. rewrite makeValid_id by exact Hv.
  cbn [hd fst snd lineCol X Y]. split; [reflexivity | split; [reflexivity |]].
  set (l := nth_line e (Y (lineCol pos))). clearbody l.
  generalize (Z.to_nat (X (lineCol pos))). intros i. revert pos.
  induction i as [| i IH]; intros pos; [reflexivity |]. cbn [back_cols]. rewrite IH. reflexivity.
Qed.

Lemma down_lines_valid (e : Editor) :
  valid e = true ->
  forall n pd pos, exists p, down_lines n pd pos e = (p, e) /\
  Y (lineCol p) = Y (lineCol pos) + Z.of_nat n.
Proof.
  intros Hv. induction n as [| n IH]; intros pd pos.
  - exists pos. split; [reflexivity | lia].
  - cbn [down_lines]. unfold bind, get.
    destruct (movePosToEnd_valid pos e Hv) as [H1 H2].
    destruct (movePosToEnd pos e) as [pe e1]. cbn [snd fst] in H1, H2. subst e1.
    cbv beta iota zeta.
    match goal with |- context [down_lines n ?a ?b e] =>
      destruct (IH a b) as (p & H3 & H4) end.
    exists p. rewrite H3. split; [reflexivity | rewrite H4; cbn [lineCol Y]; lia].
Qed.

Lemma up_lines_valid (e : Editor) :
  valid e = true ->
  forall n pd pos, exists p, up_lines n pd pos e = (p, e) /\
  Y (lineCol p) = Y (lineCol pos) - Z.of_nat n.
Proof.
  intros Hv. induction n as [| n IH]; intros pd pos.
  - exists pos. split; [reflexivity | lia].
  - cbn [up_lines]. unfold bind, get.
    destruct (movePosToStart_valid pos e Hv) as (H1 & _ & H2).
    destruct (movePosToStart pos e) as [p0 e1]. cbn [snd fst] in H1, H2. subst e1.
    cbv beta iota zeta.
    match goal with |- context [up_lines n ?a ?b e] =>
      destruct (IH a b) as (p & H3 & H4) end.
    exists p. rewrite H3. split; [reflexivity | rewrite H4; cbn [lineCol Y]; lia].
Qed.

Lemma movePosToLine_valid (e : Editor) (pos : combinedPos) (tx line : Z) :
  valid e = true -> lines e <> [] ->
  let line' := Z.max 0 (Z.min line (nlines e - 1)) in
  let l := nth_line e line' in
  let end_ := if line' <? nlines e - 1 then 1 else 0 in
  exists p0, X (lineCol p0) = 0 /\ Y (lineCol p0) = line' /\
    x p0 = align (EAlignment e) (Width l) (viewW e) /\
    movePosToLine pos tx line e =
      (col_loop (firstn (Z.to_nat (alen l - end_)) (Advances l)) (rr e) tx p0, e).
Proof.
  intros Hv Hl line' l end_.
  assert (Hn : 1 <= nlines e) by (unfold nlines; destruct (lines e); [congruence | cbn [length]; lia]).
  assert (Hline : (let line := if line <? 0 then 0 else line in
                   if line >=? nlines e then nlines e - 1 else line) = line')
    by (subst line'; cbv zeta; destruct (line <? 0) eqn:E1;
        match goal with |- context [if ?c then _ else _] => destruct c eqn:E2 end; lia).
  unfold movePosToLine, bind, get, ret. rewrite makeValid_id by exact Hv. cbn [hd].
  cbv beta iota zeta. cbv zeta in Hline. rewrite Hline.
  destruct (down_lines_valid e Hv (Z.to_nat (line' - Y (lineCol pos)))
              (Descent (nth_line e line')) pos) as (p1 & H1 & H1').
  rewrite H1. cbv beta iota.
  destruct (up_lines_valid e Hv (Z.to_nat (Y (lineCol p1) - line'))
              (Descent (nth_line e line')) p1) as (p2 & H2 & H2').
  rewrite H2. cbv beta iota.
  destruct (movePosToStart_valid p2 e Hv) as (H3 & H3x & H3y).
  destruct (movePosToStart p2 e) as [p3 e3]. cbn [fst snd] in H3, H3x, H3y. subst e3.
  eexists. split; [| split; [| split; [| reflexivity]]]; cbn [lineCol X Y x].
  - exact H3x.
  - rewrite H3y, H2', H1'. lia.
  - reflexivity.
Qed.

(** C6 (amended): on a valid layout, a line move by [d] targets the
    x [tx = x + xoff] of the caret and lands on line
    [clamp (Y + d) 0 (lines - 1)], at a column [X] within the line (the
    newline column of a line that is not the last excluded) whose x is
    [colx X], with the new anchor [xoff = tx - colx X]; when the advances
    of that line are non-negative, no column of the line is strictly
    closer to [tx], and every column before [X] is either strictly farther
    or at the same x (a run of zero-width columns is crossed to its
    last column). *)
Theorem moveLines_closest (e : Editor) (d : Z) (act : selectionAction) :
  valid e = true -> lines e <> [] ->
  let tx := x (caret_start e) + caret_xoff e in
  let line := Z.max 0 (Z.min (Y (lineCol (caret_start e)) + d) (nlines e - 1)) in
  let l := nth_line e line in
  let maxc := Z.max 0 (if line <? nlines e - 1 then alen l - 1 else alen l) in
  let e' := snd (moveLines d act e) in
  let p := caret_start e' in
  Y (lineCol p) = line /\
  0 <= X (lineCol p) <= maxc /\
  x p = colx e l (X (lineCol p)) /\
  caret_xoff e' = tx - x p /\
  (Forall (fun a => 0 <= a) (Advances l) ->
     (forall c, 0 <= c <= maxc -> Z.abs (x p - tx) <= Z.abs (colx e l c - tx)) /\
     (forall c, 0 <= c < X (lineCol p) ->
        Z.abs (x p - tx) < Z.abs (colx e l c - tx) \/ colx e l c = x p)).
Proof.
  intros Hv Hl tx line l maxc e' p.
  destruct (movePosToLine_valid e (caret_start e) tx (Y (lineCol (caret_start e)) + d) Hv Hl)
    as (p0 & HX0 & HY0 & Hx0 & Hmove).
  fold line in HY0, Hmove. fold l in Hx0, Hmove.
  set (end_ := if line <? nlines e - 1 then 1 else 0) in Hmove.
  set (advs := firstn (Z.to_nat (alen l - end_)) (Advances l)) in Hmove.
  assert (He' : e' = set_xoff (set_start e (col_loop advs (rr e) tx p0))
                              (tx - x (col_loop advs (rr e) tx p0))
             \/ e' = (let e1 := set_xoff (set_start e (col_loop advs (rr e) tx p0))
                                     (tx - x (col_loop advs (rr e) tx p0)) in
                      set_end e1 (caret_start e1))).
  { subst e'. unfold moveLines, bind, get, modify. cbv beta iota zeta. fold tx.
    rewrite Hmove. destruct act; cbn [updateSelection]; [left | right]; reflexivity. }
  assert (Hp : p = col_loop advs (rr e) tx p0 /\ caret_xoff e' = tx - x p).
  { subst p. destruct He' as [-> | ->]; split; reflexivity. }
  destruct Hp as [Hp Hxoff]. clearbody e'. subst p. rewrite Hp in Hxoff |- *.
  destruct (col_loop_spec (rr e) tx advs p0) as (k & Hk & HX & HY & Hx & Hpass & Hstop).
  cbv zeta in HX, HY, Hx, Hpass, Hstop.
  assert (Hlen : Z.of_nat (length advs) = maxc).
  { subst advs maxc end_. rewrite length_firstn. unfold alen.
    destruct (line <? nlines e - 1); lia. }
  assert (Hfs : forall j, (j <= length advs)%nat ->
            fold_right Z.add 0 (firstn j advs) = fold_right Z.add 0 (firstn j (Advances l))).
  { intros j Hj. subst advs. rewrite firstn_firstn. rewrite length_firstn in Hj.
    f_equal. f_equal. lia. }
  assert (Hcolx : forall c, 0 <= c <= maxc ->
            colx e l c = x p0 + fold_right Z.add 0 (firstn (Z.to_nat c) advs)).
  { intros c Hc. unfold colx. rewrite Hx0, Hfs by lia. reflexivity. }
  assert (HXk : X (lineCol (col_loop advs (rr e) tx p0)) = Z.of_nat k) by (rewrite HX, HX0; lia).
  split; [rewrite HY, HY0; reflexivity |].
  split; [rewrite HXk; lia |].
  split; [rewrite HXk, Hcolx by lia; rewrite Nat2Z.id; exact Hx |].
  split; [exact Hxoff |].
  intros Hnn.
  assert (Hnn' : Forall (fun a => 0 <= a) advs).
  { subst advs. rewrite <- (firstn_skipn (Z.to_nat (alen l - end_)) (Advances l)) in Hnn.
    apply Forall_app in Hnn. apply Hnn. }
  destruct (closest_of_stop advs (x p0) tx k Hnn' Hk Hpass Hstop) as [Hc1 Hc2].
  rewrite Hx, HXk. split.
  - intros c Hc. rewrite Hcolx by exact Hc. apply Hc1. lia.
  - intros c Hc. rewrite Hcolx by lia.
    destruct (Hc2 (Z.to_nat c) ltac:(lia)) as [H | H]; [left; exact H | right; rewrite H; reflexivity].
Qed.

Lemma moveLines_closest_witness :
  let e' := snd (moveLines 1 selectionClear ab_cdef_editor) in
  Y (lineCol (caret_start e')) = 1 /\ X (lineCol (caret_start e')) = 1 /\
  caret_xoff e' = 0.
Proof.
  destruct (moveLines_closest ab_cdef_editor 1 selectionClear eq_refl ltac:(discriminate))
    as (HY & _ & _ & _ & _).
  cbv zeta in *. split; [rewrite HY; vm_compute; reflexivity | vm_compute; split; reflexivity].
Defined.

(* ================================================================== *)
(** * The index invariant *)

Lemma skipn_cons_S {A : Type} (l : list A) :
  forall n a t, skipn n l = a :: t -> skipn (S n) l = t /\ nth_error l n = Some a.
Proof.
  induction l as [| b l IH]; intros n a t H; [destruct n; discriminate |].
  destruct n as [| n]; cbn [skipn] in *.
  - injection H as -> ->. split; reflexivity.
  - apply IH in H. exact H.
Qed.

Lemma total_cols_firstn_S (ls : list Line) :
  forall n, (n < length ls)%nat ->
  total_cols (firstn (S n) ls) = total_cols (firstn n ls) + alen (nth n ls emptyLine).
Proof.
  induction ls as [| l ls IH]; intros n Hn; [cbn in Hn; lia |].
  destruct n as [| n].
  - cbn [firstn nth]. rewrite total_cols_cons, total_cols_nil. lia.
  - rewrite !firstn_cons, !total_cols_cons. cbn [length nth] in *.
    rewrite (IH n) by lia. lia.
Qed.

Lemma scan_pos_bound (e : Editor) (p : combinedPos) :
  scan_pos e p ->
  runes p + alen (nth_line e (Y (lineCol p))) - X (lineCol p) <= total_cols (lines e).
Proof.
  intros (HY & HX & Hr). unfold nlines in HY.
  pose proof (total_cols_split (lines e) (Z.to_nat (Y (lineCol p))) ltac:(lia)) as Hs.
  pose proof (total_cols_nonneg (skipn (S (Z.to_nat (Y (lineCol p)))) (lines e))).
  unfold prefix_cols in Hr. unfold nth_line. lia.
Qed.

Lemma step_consistent (b : editBuffer) (c : combinedPos) (adv : Z) :
  pos_consistent b c -> runes c < Z.of_nat (length b) ->
  pos_consistent b (step_col c adv (snd (runeAt b (ofs c)))).
Proof.
  intros [Hk Ho] Hlt. set (j := Z.to_nat (runes c)).
  assert (Hj : (j < length b)%nat) by (subst j; lia).
  split; unfold step_col; cbn [runes ofs]; [lia |].
  rewrite Ho. fold j. rewrite runeAt_firstn by exact Hj.
  replace (Z.to_nat (runes c + 1)) with (S j) by (subst j; lia).
  rewrite bytes_firstn_S by exact Hj. reflexivity.
Qed.

Lemma scan_cols_good (e : Editor) (pos : combinedPos) :
  total_cols (lines e) = Z.of_nat (length (rr e)) ->
  forall advs c cnt idx, good_pos e c ->
  advs = skipn (Z.to_nat (X (lineCol c))) (Advances (nth_line e (Y (lineCol c)))) ->
  Forall (good_pos e) idx ->
  let '(b, c', _, idx') := scan_cols e pos advs c cnt idx in
  good_pos e c' /\ Forall (good_pos e) idx' /\ (exists t, idx' = idx ++ t) /\
  Y (lineCol c') = Y (lineCol c) /\
  (b = false -> X (lineCol c') = alen (nth_line e (Y (lineCol c)))).
Proof.
  intros Htot. induction advs as [| adv advs IH]; intros c cnt idx Hc Hadv Hidx.
  - cbn [scan_cols]. split; [exact Hc |]. split; [exact Hidx |].
    split; [exists []; rewrite app_nil_r; reflexivity |]. split; [reflexivity |].
    intros _. destruct Hc as ((_ & HX & _) & _).
    assert (H0 := f_equal (@length Z) Hadv). rewrite length_skipn in H0. cbn [length] in H0.
    unfold alen in *. lia.
  - cbn [scan_cols].
    assert (Hi : forall idx1 cnt1,
               (if cnt =? runesPerIndexEntry then (idx ++ [c], 0) else (idx, cnt)) = (idx1, cnt1) ->
               Forall (good_pos e) idx1 /\ exists t, idx1 = idx ++ t).
    { intros idx1 cnt1 H. destruct (cnt =? runesPerIndexEntry); injection H as <- <-.
      - split; [apply Forall_app; split; [exact Hidx | constructor; [exact Hc | constructor]] |].
        exists [c]. reflexivity.
      - split; [exact Hidx | exists []; rewrite app_nil_r; reflexivity]. }
    destruct (if cnt =? runesPerIndexEntry then (idx ++ [c], 0) else (idx, cnt))
      as [idx1 cnt1] eqn:Hic.
    destruct (Hi idx1 cnt1 eq_refl) as [Hidx1 [t1 Ht1]].
    destruct (positionGreaterOrEqual e c pos).
    + split; [exact Hc |]. split; [exact Hidx1 |]. split; [exists t1; exact Ht1 |].
      split; [reflexivity | discriminate].
    + symmetry in Hadv. destruct (skipn_cons_S _ _ _ _ Hadv) as [Hrest Hnth].
      assert (HXlt : X (lineCol c) < alen (nth_line e (Y (lineCol c)))).
      { assert (H0 := f_equal (@length Z) Hadv). rewrite length_skipn in H0. cbn [length] in H0.
        destruct Hc as ((_ & HX & _) & _). unfold alen. lia. }
      set (c1 := step_col c adv (snd (runeAt (rr e) (ofs c)))).
      assert (Hc1 : good_pos e c1).
      { destruct Hc as ((HY & HX & Hr) & Hcons). split.
        - split; [exact HY |]. split; [unfold c1, step_col; cbn [lineCol X Y]; lia |].
          unfold c1, step_col. cbn [lineCol X Y runes]. lia.
        - apply step_consistent; [exact Hcons |].
          pose proof (scan_pos_bound e c (conj HY (conj HX Hr))). lia. }
      specialize (IH c1 (cnt1 + 1) idx1 Hc1).
      destruct (scan_cols e pos advs c1 (cnt1 + 1) idx1) as [[[b c'] k] idx'].
      destruct IH as (H1 & H2 & [t2 H3] & H4 & H5).
      * unfold c1, step_col. cbn [lineCol X Y].
        replace (Z.to_nat (X (lineCol c) + 1)) with (S (Z.to_nat (X (lineCol c))))
          by (destruct Hc as ((_ & HX & _) & _); lia).
        symmetry. exact Hrest.
      * exact Hidx1.
      * split; [exact H1 |]. split; [exact H2 |].
        split; [exists (t1 ++ t2); rewrite H3, Ht1, app_assoc; reflexivity |].
        split; [exact H4 |]. intros Hb. rewrite (H5 Hb). reflexivity.
Qed.

Lemma scan_lines_good (e : Editor) (pos : combinedPos) :
  total_cols (lines e) = Z.of_nat (length (rr e)) ->
  forall rest l c cnt idx, good_pos e c ->
  rest = skipn (S (Z.to_nat (Y (lineCol c)))) (lines e) ->
  l = nth_line e (Y (lineCol c)) ->
  Forall (good_pos e) idx ->
  let '(c', idx') := scan_lines e pos rest l c cnt idx in
  good_pos e c' /\ Forall (good_pos e) idx' /\ exists t, idx' = idx ++ t.
Proof.
  intros Htot. induction rest as [| l' rest IH]; intros l c cnt idx Hc Hrest Hl Hidx;
    cbn [scan_lines];
    pose proof (scan_cols_good e pos Htot (skipn (Z.to_nat (X (lineCol c))) (Advances l))
                  c cnt idx Hc ltac:(rewrite Hl; reflexivity) Hidx) as Hs;
    destruct (scan_cols _ _ _ _ _ _) as [[[b c1] k] i1];
    destruct Hs as (H1 & H2 & [t H3] & H4 & H5).
  - destruct b; (split; [exact H1 | split; [exact H2 | exists t; exact H3]]).
  - destruct b; [split; [exact H1 | split; [exact H2 | exists t; exact H3]] |].
    specialize (H5 eq_refl).
    symmetry in Hrest. destruct (skipn_cons_S _ _ _ _ Hrest) as [Hrest' Hnth].
    destruct Hc as ((HY & HX & Hr) & Hcons).
    assert (HY1 : Y (lineCol c) + 1 < nlines e).
    { assert (Hlt : (S (Z.to_nat (Y (lineCol c))) < length (lines e))%nat)
        by (apply nth_error_Some; rewrite Hnth; discriminate).
      unfold nlines. lia. }
    assert (Hl' : l' = nth_line e (Y (lineCol c) + 1)).
    { unfold nth_line. replace (Z.to_nat (Y (lineCol c) + 1)) with (S (Z.to_nat (Y (lineCol c))))
        by lia. symmetry. apply nth_error_nth. exact Hnth. }
    set (c2 := next_line e c1 l l').
    assert (Hc2 : good_pos e c2).
    { destruct H1 as ((HY1' & HX1 & Hr1) & Hcons1).
      split; [| exact Hcons1].
      unfold c2, next_line. split; [cbn [lineCol Y]; rewrite H4; lia |].
      split; [cbn [lineCol X Y]; unfold alen; lia |].
      cbn [lineCol X Y runes]. rewrite Hr1, H4, H5.
      unfold prefix_cols. replace (Z.to_nat (Y (lineCol c) + 1)) with (S (Z.to_nat (Y (lineCol c))))
        by lia.
      rewrite total_cols_firstn_S by (unfold nlines in HY1; lia).
      unfold nth_line. lia. }
    specialize (IH l' c2 k i1 Hc2).
    destruct (scan_lines e pos rest l' c2 k i1) as [c' idx'].
    destruct IH as (H6 & H7 & [t' H8]).
    + unfold c2, next_line. cbn [lineCol Y]. rewrite H4.
      replace (Z.to_nat (Y (lineCol c) + 1)) with (S (Z.to_nat (Y (lineCol c)))) by lia.
      symmetry. exact Hrest'.
    + unfold c2, next_line. cbn [lineCol Y]. rewrite H4. exact Hl'.
    + exact H2.
    + split; [exact H6 | split; [exact H7 |]]. exists (t ++ t'). rewrite H8, H3, app_assoc. reflexivity.
Qed.

Lemma good_pos_set_index (e : Editor) (idx : list combinedPos) (p : combinedPos) :
  good_pos (set_index e idx) p <-> good_pos e p.
Proof. reflexivity. Qed.

Lemma originPos_good (e : Editor) : lines e <> [] -> good_pos e (originPos e).
Proof.
  intros Hl. split; [apply originPos_scan_pos, Hl |].
  split; cbn [runes ofs originPos]; [lia | reflexivity].
Qed.

Lemma indexPosition_good (pos : combinedPos) (e : Editor) :
  lines e <> [] -> index_good e ->
  let '(c, e1) := indexPosition pos e in
  good_pos e c /\ (exists idx, e1 = set_index e idx) /\
  Forall (good_pos e) (index e1) /\
  exists p ps, index e1 = p :: ps /\ runes p = 0.
Proof.
  intros Hl [Hall Hhd]. unfold indexPosition.
  set (e2 := match index e with [] => set_index e [originPos e] | _ => e end).
  assert (H2 : (exists idx, e2 = set_index e idx) /\ Forall (good_pos e) (index e2) /\
               exists p ps, index e2 = p :: ps /\ runes p = 0).
  { subst e2. destruct (index e) as [| p0 ps] eqn:Hi.
    - split; [eexists; reflexivity |]. split.
      + constructor; [apply originPos_good, Hl | constructor].
      + do 2 eexists. split; reflexivity.
    - split; [exists (index e); destruct e; cbn in Hi |- *; rewrite Hi; reflexivity |].
      rewrite Hi. split; [exact Hall |]. do 2 eexists. split; [reflexivity | exact Hhd]. }
  clearbody e2. destruct H2 as ([idx0 He2] & Hall2 & (p & ps & Hidx2 & Hp)).
  cbv zeta.
  set (n := Z.of_nat (length (index e2))).
  assert (Hn : 1 <= n) by (subst n; rewrite Hidx2; cbn [length]; lia).
  unfold sort_Search.
  set (f := fun i => positionGreaterOrEqual e2 (nth (Z.to_nat i) (index e2) zeroPos) pos).
  destruct (search_loop_spec f (Z.to_nat n) 0 n) as [Hk _]; [lia | left; reflexivity |].
  set (k := search_loop (Z.to_nat n) f 0 n) in Hk |- *. clearbody k.
  set (i := if k >? 0 then k - 1 else k).
  assert (Hi : 0 <= i < n) by (subst i; destruct (k >? 0) eqn:E; lia).
  split; [| split; [exists idx0; exact He2 | split; [exact Hall2 | exists p, ps; split; assumption]]].
  eapply Forall_forall; [exact Hall2 |]. apply nth_In. subst n. lia.
Qed.

Lemma closestPosition_good (pos : combinedPos) (e : Editor) :
  layout_ok e ->
  let '(c, e') := closestPosition pos e in
  good_pos e c /\ layout_ok e' /\ exists idx, e' = set_index e idx.
Proof.
  intros (Hl & Htot & Hok). unfold closestPosition.
  pose proof (indexPosition_good pos e Hl Hok) as HI.
  destruct (indexPosition pos e) as [c e1].
  destruct HI as (Hc & [idx0 He1] & Hall1 & (p & ps & Hidx1 & Hp)). subst e1.
  pose proof (scan_lines_good (set_index e idx0) pos Htot
                (skipn (S (Z.to_nat (Y (lineCol c)))) (lines (set_index e idx0)))
                (nth_line (set_index e idx0) (Y (lineCol c))) c 0 (index (set_index e idx0))
                Hc eq_refl eq_refl Hall1) as HS.
  destruct (scan_lines _ _ _ _ _ _ _) as [c' idx'].
  destruct HS as (H1 & H2 & [t H3]).
  split; [exact H1 |]. split; [| exists idx'; reflexivity].
  split; [exact Hl |]. split; [exact Htot |].
  split; [exact H2 |]. cbn [index set_index]. rewrite H3, Hidx1. exact Hp.
Qed.

Lemma layout_ok_index_ok (e : Editor) : layout_ok e -> index_ok e.
Proof.
  intros (_ & _ & Hall & Hhd). split; [| exact Hhd].
  eapply Forall_impl; [| exact Hall]. intros p [Hp _]. exact Hp.
Qed.

Lemma closestPosition_rune (r : Z) (e : Editor) :
  layout_ok e ->
  let '(c, e') := closestPosition (rune_target r) e in
  runes c = clamp r 0 (Z.of_nat (length (rr e))) /\ good_pos e c /\ layout_ok e' /\
  exists idx, e' = set_index e idx.
Proof.
  intros Hok. pose proof (closestPosition_good (rune_target r) e Hok) as H.
  assert (Hr : runes (fst (closestPosition (rune_target r) e)) = clamp r 0 (Z.of_nat (length (rr e)))).
  { pose proof (layout_ok_index_ok e Hok) as Hok'. destruct Hok as (Hl & Htot & _).
    unfold closestPosition.
    destruct (indexPosition (rune_target r) e) as [c e1] eqn:HI.
    destruct (indexPosition_rune e r c e1 Hl Hok' HI) as (Hl1 & (HY & HX & Hrc) & Hlt).
    pose proof (scan_lines_runes e1 r (skipn (S (Z.to_nat (Y (lineCol c)))) (lines e1))
                  (nth_line e1 (Y (lineCol c))) c 0 (index e1)) as Hs.
    destruct (scan_lines _ _ _ _ _ _ _) as [c' idx] eqn:HS. cbn [fst] in *.
    rewrite Hs by (rewrite Hrc; unfold prefix_cols;
      pose proof (total_cols_nonneg (firstn (Z.to_nat (Y (lineCol c))) (lines e))); lia).
    unfold nth_line in *. rewrite Hl1. unfold nlines in HY.
    rewrite length_skipn.
    pose proof (total_cols_split (lines e) (Z.to_nat (Y (lineCol c))) ltac:(lia)) as Hsplit.
    unfold prefix_cols in Hrc. unfold alen in HX, Hsplit.
    pose proof (total_cols_nonneg (firstn (Z.to_nat (Y (lineCol c))) (lines e))).
    pose proof (total_cols_nonneg (skipn (S (Z.to_nat (Y (lineCol c)))) (lines e))).
    unfold clamp. lia. }
  destruct (closestPosition (rune_target r) e) as [c e']. cbn [fst] in Hr.
  split; [exact Hr | exact H].
Qed.

Lemma layout_ok_set_index (e : Editor) (idx : list combinedPos) :
  layout_ok (set_index e idx) -> forall s, layout_ok (set_start (set_index e idx) s).
Proof. intros H s. exact H. Qed.

Lemma layout_ok_set_end (e : Editor) (t : combinedPos) :
  layout_ok e -> layout_ok (set_end e t).
Proof. intros H. exact H. Qed.

Lemma layout_ok_set_start (e : Editor) (s : combinedPos) :
  layout_ok e -> layout_ok (set_start e s).
Proof. intros H. exact H. Qed.

(** Resolving the two caret ends one after the other, from rune offsets
    computed from the editor, as [makeValidCaret], [MoveCaret] and
    [SetCaret] do. *)
Lemma resolve_ends (e : Editor) (rs rt : Editor -> Z) :
  layout_ok e ->
  (forall idx p, rt (set_start (set_index e idx) p) = rt e) ->
  let m := (ee <- get ;;
            s <- closestPosition (rune_target (rs ee)) ;;
            modify (fun e => set_start e s) ;;;
            ee <- get ;;
            t <- closestPosition (rune_target (rt ee)) ;;
            modify (fun e => set_end e t)) in
  exists idx s t, snd (m e) = set_end (set_start (set_index e idx) s) t /\
    runes s = clamp (rs e) 0 (Z.of_nat (length (rr e))) /\ good_pos e s /\
    runes t = clamp (rt e) 0 (Z.of_nat (length (rr e))) /\ good_pos e t /\
    layout_ok (set_end (set_start (set_index e idx) s) t).
Proof.
  intros Hok Hrt m. subst m. unfold bind, get, modify.
  pose proof (closestPosition_rune (rs e) e Hok) as H1.
  destruct (closestPosition (rune_target (rs e)) e) as [s e1].
  destruct H1 as (Hs & Hgs & Hok1 & [idx1 He1]). subst e1.
  pose proof (closestPosition_rune (rt (set_start (set_index e idx1) s))
                (set_start (set_index e idx1) s) Hok1) as H2.
  destruct (closestPosition _ (set_start (set_index e idx1) s)) as [t e2].
  destruct H2 as (Ht & Hgt & Hok2 & [idx2 He2]). subst e2.
  exists idx2, s, t. cbn [snd].
  split; [reflexivity |].
  split; [exact Hs |]. split; [exact Hgs |].
  split; [rewrite Ht, Hrt; reflexivity |]. split; [exact Hgt |].
  apply layout_ok_set_end. exact Hok2.
Qed.

Lemma makeValidCaret_nil (e : Editor) :
  layout_ok e ->
  exists idx s t, makeValidCaret [] e = ([], set_end (set_start (set_index e idx) s) t) /\
    runes s = clamp (runes (caret_start e)) 0 (Z.of_nat (length (rr e))) /\ good_pos e s /\
    runes t = clamp (runes (caret_end e)) 0 (Z.of_nat (length (rr e))) /\ good_pos e t /\
    layout_ok (set_end (set_start (set_index e idx) s) t).
Proof.
  intros Hok.
  destruct (resolve_ends e (fun e => runes (caret_start e)) (fun e => runes (caret_end e)) Hok
              (fun _ _ => eq_refl)) as (idx & s & t & H1 & H2).
  exists idx, s, t. split; [| exact H2].
  unfold makeValidCaret. cbn [resolve_all]. unfold bind at 1, ret at 1.
  rewrite <- H1. unfold bind, get, modify, ret.
  destruct (closestPosition _ e) as [s' e1].
  destruct (closestPosition _ (set_start e1 s')) as [t' e2]. reflexivity.
Qed.

Lemma good_pos_caret (e : Editor) (idx : list combinedPos) (s t p : combinedPos) :
  good_pos (set_end (set_start (set_index e idx) s) t) p <-> good_pos e p.
Proof. reflexivity. Qed.



(** [SetCaret] on a valid layout whose columns are the runes of the
    buffer: the caret ends land on the given rune offsets, clamped to the
    content, at positions that agree with the layout and the buffer. *)
Theorem SetCaret_clamp (e : Editor) (s t : Z) :
  valid e = true -> layout_ok e ->
  let n := Z.of_nat (length (rr e)) in
  let e' := snd (SetCaret s t e) in
  runes (caret_start e') = clamp s 0 n /\ runes (caret_end e') = clamp t 0 n /\
  good_pos e' (caret_start e') /\ good_pos e' (caret_end e') /\
  rr e' = rr e /\ lines e' = lines e /\ valid e' = true /\ layout_ok e'.
Proof.
  intros Hv Hok n e'. subst e'.
  set (e1 := (let s0 := caret_start e in
              let t0 := caret_end e in
              set_end (set_start e (with_ofs_runes s0 (ofs s0) s)) (with_ofs_runes t0 (ofs t0) t))).
  destruct (makeValidCaret_nil e1 Hok) as (idx & s' & t' & H1 & Hs & Hgs & Ht & Hgt & Hok').
  assert (Heq : snd (SetCaret s t e) = set_end (set_start (set_index e1 idx) s') t').
  { unfold SetCaret. unfold bind at 1. rewrite makeValid_id by exact Hv.
    unfold bind at 1, modify at 1. fold e1. unfold bind at 1. rewrite H1. reflexivity. }
  rewrite Heq. cbn [caret_start caret_end set_end set_start set_index rr lines valid].
  split; [exact Hs |]. split; [exact Ht |]. split; [exact Hgs |]. split; [exact Hgt |].
  split; [reflexivity |]. split; [reflexivity |]. split; [exact Hv | exact Hok'].
Qed.

Lemma SetCaret_clamp_witness :
  runes (caret_start (snd (SetCaret 7 (-2) (plain_editor hello_world zeroPos zeroPos)))) = 7 /\
  runes (caret_end (snd (SetCaret 7 (-2) (plain_editor hello_world zeroPos zeroPos)))) = 0.
Proof.
  destruct (SetCaret_clamp (plain_editor hello_world zeroPos zeroPos) 7 (-2))
    as (H1 & H2 & _).
  - reflexivity.
  - split; [vm_compute; discriminate | split; [vm_compute; reflexivity | split; [constructor | exact I]]].
  - cbv zeta in H1, H2. rewrite H1, H2. split; reflexivity.
Defined.

(** The select-all command on a layout whose columns are the runes of the
    buffer: the selection end goes to rune 0 and the caret to the end of
    the content. *)
Theorem selectAll_whole (e : Editor) :
  layout_ok e -> Z.of_nat (length (rr e)) <= MaxInt ->
  let e' := snd (selectAll e) in
  runes (caret_end e') = 0 /\ runes (caret_start e') = Z.of_nat (length (rr e)) /\
  good_pos e' (caret_start e') /\ good_pos e' (caret_end e') /\ rr e' = rr e /\ layout_ok e'.
Proof.
  intros Hok Hmax e'. subst e'. unfold selectAll, bind, modify.
  pose proof (closestPosition_rune 0 e Hok) as H1.
  change zeroPos with (rune_target 0).
  destruct (closestPosition (rune_target 0) e) as [t e1].
  destruct H1 as (Ht & Hgt & Hok1 & [idx1 He1]). subst e1.
  pose proof (closestPosition_rune MaxInt (set_end (set_index e idx1) t) Hok1) as H2.
  destruct (closestPosition (rune_target MaxInt) (set_end (set_index e idx1) t)) as [s e2].
  destruct H2 as (Hs & Hgs & Hok2 & [idx2 He2]). subst e2. cbn [snd].
  cbn [caret_start caret_end set_end set_start set_index rr] in *.
  split; [rewrite Ht; unfold clamp; lia |].
  split; [rewrite Hs; unfold clamp; lia |].
  split; [exact Hgs |]. split; [exact Hgt |]. split; [reflexivity | exact Hok2].
Qed.

Lemma selectAll_whole_witness :
  runes (caret_end (snd (selectAll (plain_editor hello_world (mkPos 3 3 (mkSP 3 0) 192 0)
                                      (mkPos 3 3 (mkSP 3 0) 192 0))))) = 0 /\
  runes (caret_start (snd (selectAll (plain_editor hello_world (mkPos 3 3 (mkSP 3 0) 192 0)
                                        (mkPos 3 3 (mkSP 3 0) 192 0))))) = 11.
Proof.
  destruct (selectAll_whole (plain_editor hello_world (mkPos 3 3 (mkSP 3 0) 192 0)
                               (mkPos 3 3 (mkSP 3 0) 192 0))) as (H1 & H2 & _).
  - split; [vm_compute; discriminate | split; [vm_compute; reflexivity | split; [constructor | exact I]]].
  - vm_compute. discriminate.
  - cbv zeta in H1, H2. rewrite H1, H2. split; reflexivity.
Defined.

(** [Len] on a valid layout whose columns are the runes of the buffer is
    the number of runes of the content. *)
Theorem Len_valid (e : Editor) :
  valid e = true -> layout_ok e -> Z.of_nat (length (rr e)) <= MaxInt ->
  fst (Len e) = Z.of_nat (length (rr e)) /\ layout_ok (snd (Len e)) /\ rr (snd (Len e)) = rr e.
Proof.
  intros Hv Hok Hmax.
  assert (Heq : Len e = let '(c, e1) := closestPosition (rune_target MaxInt) e in (runes c, e1)).
  { unfold Len, bind at 1. rewrite makeValid_id by exact Hv. reflexivity. }
  rewrite Heq.
  pose proof (closestPosition_rune MaxInt e Hok) as H.
  destruct (closestPosition (rune_target MaxInt) e) as [c e1].
  destruct H as (Hc & _ & Hok1 & [idx He1]). subst e1. cbn [fst snd].
  split; [rewrite Hc; unfold clamp; lia | split; [exact Hok1 | reflexivity]].
Qed.

Lemma Len_valid_witness : fst (Len (plain_editor hello_world zeroPos zeroPos)) = 11.
Proof.
  destruct (Len_valid (plain_editor hello_world zeroPos zeroPos)) as (H & _).
  - reflexivity.
  - split; [vm_compute; discriminate | split; [vm_compute; reflexivity | split; [constructor | exact I]]].
  - vm_compute. discriminate.
  - rewrite H. reflexivity.
Defined.

(* ================================================================== *)
(** * UTF-8 round trip *)

Lemma lor_add_small (a b k : Z) :
  0 <= k -> 0 <= b < 2 ^ k -> Z.lor (a * 2 ^ k) b = a * 2 ^ k + b.
Proof.
  intros Hk Hb.
  assert (H0 : Z.land (a * 2 ^ k) b = 0).
  { rewrite <- Z.shiftl_mul_pow2 by exact Hk.
    apply Z.bits_inj'. intros n Hn. rewrite Z.land_spec, Z.shiftl_spec by exact Hn.
    rewrite Z.bits_0.
    destruct (Z.lt_ge_cases n k) as [Hnk | Hnk].
    - rewrite Z.testbit_neg_r by lia. reflexivity.
    - rewrite <- (Z.mod_small b (2 ^ k)) by exact Hb.
      rewrite Z.mod_pow2_bits_high by lia. apply andb_false_r. }
  rewrite <- Z.lxor_lor by exact H0. symmetry. apply Z.add_nocarry_lxor, H0.
Qed.

Lemma lor_add_small_c (a b m k : Z) :
  0 <= k -> m = 2 ^ k -> 0 <= b < m -> Z.lor (a * m) b = a * m + b.
Proof. intros Hk -> Hb. apply lor_add_small; assumption. Qed.

Lemma land_low (a k : Z) : 0 <= k -> Z.land a (2 ^ k - 1) = a mod 2 ^ k.
Proof. intros Hk. rewrite Z.sub_1_r, <- Z.ones_equiv. apply Z.land_ones, Hk. Qed.

Lemma valid_rune_range (r : Z) :
  0 <= valid_rune r <= 1114111 /\ ~ (55296 <= valid_rune r <= 57343).
Proof.
  unfold valid_rune, RuneError.
  destruct (r <? 0) eqn:E1; [cbn; lia |].
  destruct ((55296 <=? r) && (r <=? 57343)) eqn:E2; [cbn; lia |].
  destruct (1114111 <? r) eqn:E3; cbn [orb]; [lia |].
  apply andb_false_iff in E2. lia.
Qed.

Ltac zbool :=
  repeat match goal with
  | H : (_ && _) = true |- _ => apply andb_prop in H; destruct H
  | H : (_ && _) = false |- _ => apply andb_false_iff in H; destruct H
  | H : (_ <? _) = true |- _ => apply Z.ltb_lt in H
  | H : (_ <? _) = false |- _ => apply Z.ltb_ge in H
  | H : (_ <=? _) = true |- _ => apply Z.leb_le in H
  | H : (_ <=? _) = false |- _ => apply Z.leb_gt in H
  | H : (_ =? _) = true |- _ => apply Z.eqb_eq in H
  | H : (_ =? _) = false |- _ => apply Z.eqb_neq in H
  end.

Ltac split_ifs :=
  repeat (match goal with
          | |- context [if ?c then _ else _] => let E := fresh "E" in destruct c eqn:E
          | H : context [if ?c then _ else _] |- _ => let E := fresh "E" in destruct c eqn:E
          end; zbool).

Ltac pows :=
  try change (2 ^ 3) with 8; try change (2 ^ 4) with 16; try change (2 ^ 5) with 32;
  try change (2 ^ 6) with 64; try change (2 ^ 12) with 4096; try change (2 ^ 18) with 262144.

Lemma decode_encode_rune (r : Z) (rest : list Z) :
  decode_rune (encode_rune r ++ rest) = (valid_rune r, rune_len r).
Proof.
  assert (Hlen : rune_len r = rune_len (valid_rune r)).
  { unfold rune_len, valid_rune, RuneError.
    destruct (r <? 0) eqn:E1; [reflexivity |].
    destruct ((55296 <=? r) && (r <=? 57343)) eqn:E2; cbn [orb].
    - zbool. replace (r <=? 127) with false by lia. replace (r <=? 2047) with false by lia.
      reflexivity.
    - destruct (1114111 <? r) eqn:E3; [zbool; split_ifs; zbool; lia |].
      rewrite E1, E2. reflexivity. }
  rewrite Hlen. unfold encode_rune. fold (valid_rune r).
  destruct (valid_rune_range r) as [Hv Hs]. revert Hv Hs. generalize (valid_rune r).
  intros v Hv Hs. clear Hlen.
  (* fix the bit operations as arithmetic *)
  unfold rune_len, decode_rune, is_cont.
  change 63 with (2 ^ 6 - 1). change 31 with (2 ^ 5 - 1). change 15 with (2 ^ 4 - 1).
  change 7 with (2 ^ 3 - 1).
  rewrite ?Z.shiftr_div_pow2 by lia.
  destruct (v <=? 127) eqn:C1.
  - zbool. cbn [app]. replace (v <? 128) with true by lia.
    replace (v <? 0) with false by lia. replace (v <=? 127) with true by lia. reflexivity.
  - zbool. destruct (v <=? 2047) eqn:C2.
    + zbool. cbn [app].
      rewrite !land_low by lia. rewrite !Z.shiftl_mul_pow2 by lia. pows.
      replace (v <? 0) with false by lia. replace (v <=? 127) with false by lia.
      replace (v <=? 2047) with true by lia.
      split_ifs; Z.div_mod_to_equations; try lia; f_equal;
        rewrite ?(lor_add_small_c _ _ 64 6), ?(lor_add_small_c _ _ 4096 12),
          ?(lor_add_small_c _ _ 262144 18) by (reflexivity || lia); lia.
    + zbool. destruct (v <=? 65535) eqn:C3.
      * zbool. cbn [app].
        rewrite !land_low by lia. rewrite !Z.shiftl_mul_pow2 by lia. pows.
        replace (v <? 0) with false by lia. replace (v <=? 127) with false by lia.
        replace (v <=? 2047) with false by lia.
        replace ((55296 <=? v) && (v <=? 57343)) with false by lia.
        replace (v <=? 65535) with true by lia.
        split_ifs; Z.div_mod_to_equations; try lia; f_equal;
        rewrite ?(lor_add_small_c _ _ 64 6), ?(lor_add_small_c _ _ 4096 12),
          ?(lor_add_small_c _ _ 262144 18) by (reflexivity || lia); lia.
      * zbool. cbn [app].
        rewrite !land_low by lia. rewrite !Z.shiftl_mul_pow2 by lia. pows.
        replace (v <? 0) with false by lia. replace (v <=? 127) with false by lia.
        replace (v <=? 2047) with false by lia.
        replace ((55296 <=? v) && (v <=? 57343)) with false by lia.
        replace (v <=? 65535) with false by lia.
        replace (v <=? 1114111) with true by lia.
        split_ifs; Z.div_mod_to_equations; try lia; f_equal;
        rewrite ?(lor_add_small_c _ _ 64 6), ?(lor_add_small_c _ _ 4096 12),
          ?(lor_add_small_c _ _ 262144 18) by (reflexivity || lia); lia.
Qed.

Lemma rune_len_valid (r : Z) : rune_len r = rune_len (valid_rune r).
Proof.
  unfold rune_len, valid_rune, RuneError.
  destruct (r <? 0) eqn:E1; [reflexivity |].
  destruct ((55296 <=? r) && (r <=? 57343)) eqn:E2; cbn [orb].
  - zbool. replace (r <=? 127) with false by lia. replace (r <=? 2047) with false by lia.
    reflexivity.
  - destruct (1114111 <? r) eqn:E3; [zbool; split_ifs; lia |].
    rewrite E1, E2. reflexivity.
Qed.

Lemma encode_rune_rune_len (r : Z) : Z.of_nat (length (encode_rune r)) = rune_len r.
Proof.
  rewrite rune_len_valid. unfold encode_rune. fold (valid_rune r).
  destruct (valid_rune_range r) as [Hv Hs]. revert Hv Hs. generalize (valid_rune r).
  intros v Hv Hs. unfold rune_len.
  replace (v <? 0) with false by lia.
  replace ((55296 <=? v) && (v <=? 57343)) with false by (symmetry; apply andb_false_iff; lia).
  split_ifs; cbn [length]; lia.
Qed.

Lemma encode_string_length (b : list Z) :
  Z.of_nat (length (encode_string b)) = bytes_len b.
Proof.
  induction b as [| r b IH]; [reflexivity |].
  unfold encode_string in *. cbn [flat_map bytes_len]. rewrite length_app, Nat2Z.inj_add, IH.
  rewrite encode_rune_rune_len. reflexivity.
Qed.

Lemma decode_all_encode (b : list Z) :
  forall fuel, (length b <= fuel)%nat -> decode_all fuel (encode_string b) = map valid_rune b.
Proof.
  induction b as [| r b IH]; intros fuel Hf.
  - destruct fuel; reflexivity.
  - destruct fuel as [| fuel]; [cbn in Hf; lia |].
    unfold encode_string. cbn [flat_map]. fold (encode_string b).
    pose proof (encode_rune_length r) as Hl.
    destruct (encode_rune r) as [| x xs] eqn:Hx; [cbn in Hl; lia |].
    cbn [decode_all app].
    change (x :: xs ++ encode_string b) with ((x :: xs) ++ encode_string b).
    rewrite <- Hx, decode_encode_rune. cbn [map].
    rewrite <- encode_rune_rune_len, Nat2Z.id, skipn_app, Nat.sub_diag, skipn_O,
      skipn_all2 by lia.
    cbn [app]. rewrite IH by (cbn in Hf; lia). reflexivity.
Qed.

Lemma nullLayout_encode (b : list Z) :
  nullLayout (encode_string b) = [mkLine (map valid_rune b) (repeat 0 (length b)) 0 0 0].
Proof.
  unfold nullLayout. rewrite decode_all_encode.
  - rewrite length_map. reflexivity.
  - pose proof (encode_string_length b). pose proof (bytes_len_ge_length b). lia.
Qed.

Lemma layoutText_plain_eq (e : Editor) :
  Mask e = 0 -> shaper e = None ->
  layoutText e = [mkLine (map valid_rune (rr e)) (repeat 0 (length (rr e))) 0 0 0].
Proof.
  intros Hm Hs. unfold layoutText, layout_stream. rewrite Hm, Hs. cbn [Z.eqb].
  apply nullLayout_encode.
Qed.

(** [layoutText] without a shaper and without a mask: one line holding
    the runes of the buffer (each invalid code point decoded back as
    U+FFFD), with one zero advance per rune. *)
Theorem layoutText_plain (e : Editor) :
  Mask e = 0 -> shaper e = None ->
  layoutText e = [mkLine (map valid_rune (rr e)) (repeat 0 (length (rr e))) 0 0 0].
Proof. apply layoutText_plain_eq. Qed.

Lemma layoutText_plain_witness :
  layoutText (mkEditor Start false 0 [104; -1; 55296; 128512] None 1000 false [] [] zeroPos zeroPos 0)
  = [mkLine [104; 65533; 65533; 128512] [0; 0; 0; 0] 0 0 0].
Proof. apply layoutText_plain; reflexivity. Defined.

(* ================================================================== *)
(** * Re-validation *)

Lemma layout_ok_set_valid (e : Editor) (v : bool) : layout_ok e -> layout_ok (set_valid e v).
Proof. intros H. exact H. Qed.

Lemma makeValid_invalid (e : Editor) :
  valid e = false -> layout_ok (set_lines e (layoutText e)) ->
  exists idx s t,
    makeValid [] e =
      ([], set_valid (set_end (set_start (set_index (set_lines e (layoutText e)) idx) s) t) true) /\
    runes s = clamp (runes (caret_start e)) 0 (Z.of_nat (length (rr e))) /\
    good_pos (set_lines e (layoutText e)) s /\
    runes t = clamp (runes (caret_end e)) 0 (Z.of_nat (length (rr e))) /\
    good_pos (set_lines e (layoutText e)) t /\
    layout_ok (set_end (set_start (set_index (set_lines e (layoutText e)) idx) s) t).
Proof.
  intros Hv Hok.
  destruct (makeValidCaret_nil (set_lines e (layoutText e)) Hok)
    as (idx & s & t & H1 & H2).
  exists idx, s, t. split; [| exact H2].
  unfold makeValid, bind at 1, get at 1. rewrite Hv.
  unfold bind at 1, modify at 1. unfold bind at 1. rewrite H1. reflexivity.
Qed.

Lemma layout_ok_plain (e : Editor) :
  Mask e = 0 -> shaper e = None -> index e = [] -> layout_ok (set_lines e (layoutText e)).
Proof.
  intros Hm Hs Hi. split; [| split].
  - cbn [lines set_lines]. rewrite layoutText_plain_eq by assumption. discriminate.
  - cbn [lines set_lines rr]. rewrite layoutText_plain_eq by assumption.
    rewrite total_cols_cons, total_cols_nil. unfold alen. cbn [Advances].
    rewrite repeat_length. lia.
  - split; cbn [index set_lines]; rewrite Hi; [constructor | exact I].
Qed.

(** [makeValid] on an invalidated editor ([invalidate] empties the index
    with the flag) lays the text out again and re-resolves both caret
    ends from their rune offsets, clamped to the content, to positions of
    the new layout that agree with the buffer; the buffer is untouched. *)
Theorem makeValid_resolves (e : Editor) :
  valid e = false -> index e = [] ->
  layoutText e <> [] -> total_cols (layoutText e) = Z.of_nat (length (rr e)) ->
  let n := Z.of_nat (length (rr e)) in
  let e' := snd (makeValid [] e) in
  valid e' = true /\ lines e' = layoutText e /\ rr e' = rr e /\
  runes (caret_start e') = clamp (runes (caret_start e)) 0 n /\
  runes (caret_end e') = clamp (runes (caret_end e)) 0 n /\
  good_pos e' (caret_start e') /\ good_pos e' (caret_end e') /\ layout_ok e'.
Proof.
  intros Hv Hi Hne Htot n e'. subst e'.
  assert (Hok : layout_ok (set_lines e (layoutText e))).
  { split; [exact Hne | split; [exact Htot |]].
    split; cbn [index set_lines]; rewrite Hi; [constructor | exact I]. }
  destruct (makeValid_invalid e Hv Hok) as (idx & s & t & H1 & Hs & Hgs & Ht & Hgt & Hok').
  rewrite H1. cbn [snd valid lines rr caret_start caret_end set_valid set_end set_start
                   set_index set_lines].
  split; [reflexivity |]. split; [reflexivity |]. split; [reflexivity |].
  split; [exact Hs |]. split; [exact Ht |]. split; [exact Hgs |]. split; [exact Hgt |].
  exact Hok'.
Qed.

Lemma makeValid_resolves_witness :
  runes (caret_start (snd (makeValid [] (mkEditor Start false 0 hello_world None 1000 false [] []
            (mkPos 0 20 (mkSP 0 0) 0 0) (mkPos 0 (-4) (mkSP 0 0) 0 0) 0)))) = 11 /\
  runes (caret_end (snd (makeValid [] (mkEditor Start false 0 hello_world None 1000 false [] []
            (mkPos 0 20 (mkSP 0 0) 0 0) (mkPos 0 (-4) (mkSP 0 0) 0 0) 0)))) = 0.
Proof.
  destruct (makeValid_resolves (mkEditor Start false 0 hello_world None 1000 false [] []
            (mkPos 0 20 (mkSP 0 0) 0 0) (mkPos 0 (-4) (mkSP 0 0) 0 0) 0))
    as (_ & _ & _ & H1 & H2 & _).
  - reflexivity.
  - reflexivity.
  - vm_compute. discriminate.
  - vm_compute. reflexivity.
  - cbv zeta in H1, H2. rewrite H1, H2. split; reflexivity.
Defined.

Lemma replace_invalidates (start end_ : Z) (s : list Z) (e : Editor) :
  let e' := snd (replace start end_ s e) in
  index e' = [] /\ valid e' = false /\ Mask e' = Mask e /\ shaper e' = shaper e /\
  SingleLine e' = SingleLine e.
Proof.
  unfold replace. cbv zeta.
  destruct (if start >? end_ then (end_, start) else (start, end_)) as [a b].
  repeat split.
Qed.

(** After an edit of an editor without shaper or mask, [Len] (which lays
    the text out again) is the number of runes of the new content. *)
Theorem Len_after_replace (e : Editor) (start end_ : Z) (s : list Z) :
  Mask e = 0 -> shaper e = None ->
  let e' := snd (replace start end_ s e) in
  Z.of_nat (length (rr e')) <= MaxInt ->
  fst (Len e') = Z.of_nat (length (rr e')).
Proof.
  intros Hm Hs e' Hmax.
  destruct (replace_invalidates start end_ s e) as (Hi & Hv & Hm' & Hs' & _).
  fold e' in Hi, Hv, Hm', Hs'. rewrite Hm in Hm'. rewrite Hs in Hs'.
  destruct (makeValid_invalid e' Hv (layout_ok_plain e' Hm' Hs' Hi))
    as (idx & p & q & H1 & _ & _ & _ & _ & Hok).
  unfold Len, bind at 1. rewrite H1.
  set (e2 := set_valid (set_end (set_start (set_index (set_lines e' (layoutText e')) idx) p) q) true).
  assert (Hok2 : layout_ok e2) by (apply layout_ok_set_valid, Hok).
  unfold bind, ret.
  pose proof (closestPosition_rune MaxInt e2 Hok2) as H.
  destruct (closestPosition (rune_target MaxInt) e2) as [c e3].
  destruct H as (Hc & _). cbn [fst]. rewrite Hc. change (rr e2) with (rr e'). unfold clamp. lia.
Qed.

Lemma Len_after_replace_witness :
  fst (Len (snd (replace 5 11 [33] (plain_editor hello_world zeroPos zeroPos)))) = 6.
Proof.
  pose proof (Len_after_replace (plain_editor hello_world zeroPos zeroPos) 5 11 [33]
                eq_refl eq_refl) as H.
  cbv zeta in H. rewrite H; vm_compute; [reflexivity | discriminate].
Defined.


(* ================================================================== *)
(** * Edits *)

Lemma replace_spec (e : Editor) (start end_ : Z) (s : list Z) :
  pos_consistent (rr e) (caret_start e) ->
  pos_consistent (rr e) (caret_end e) ->
  let n := Z.of_nat (length (rr e)) in
  let a := clamp (Z.min start end_) 0 n in
  let bnd := clamp (Z.max start end_) 0 n in
  let s' := if SingleLine e then map (fun r => if r =? 10 then 32 else r) s else s in
  let newEnd := a + len_runes s' in
  let e' := snd (replace start end_ s e) in
  rr e' = firstn (Z.to_nat a) (rr e) ++ s' ++ skipn (Z.to_nat bnd) (rr e) /\
  runes (caret_start e') = remap bnd newEnd (runes (caret_start e)) /\
  runes (caret_end e') = remap bnd newEnd (runes (caret_end e)) /\
  pos_consistent (rr e') (caret_start e') /\
  pos_consistent (rr e') (caret_end e') /\
  index e' = [] /\ valid e' = false.
Proof.
  intros Hs He n a bnd s' newEnd e'. subst e'.
  rewrite replace_sorted. unfold replace.
  replace (Z.min start end_ >? Z.max start end_) with false by lia.
  cbv beta iota zeta. fold s'.
  rewrite !seek_spec by assumption. fold n. fold a. fold bnd.
  assert (Hab : 0 <= a <= bnd /\ bnd <= n) by (subst a bnd; unfold clamp; lia).
  change (ofs (at_rune (rr e) (caret_start e) a)) with (bytes_len (firstn (Z.to_nat a) (rr e))).
  change (runes (at_rune (rr e) (caret_end e) bnd)) with bnd.
  change (runes (at_rune (rr e) (caret_start e) a)) with a.
  rewrite replace_buffer by (subst n; lia).
  set (b' := firstn (Z.to_nat a) (rr e) ++ s' ++ skipn (Z.to_nat bnd) (rr e)).
  assert (Hlen : Z.of_nat (length b') = n - bnd + a + len_runes s').
  { subst b'. rewrite !length_app, length_firstn, length_skipn. unfold len_runes. subst n. lia. }
  assert (Hpre : firstn (Z.to_nat a) b' = firstn (Z.to_nat a) (rr e)).
  { subst b'. rewrite firstn_app, length_firstn, Nat.min_l by (subst n; lia).
    rewrite Nat.sub_diag, firstn_O, app_nil_r, firstn_firstn, Nat.min_id. reflexivity. }
  assert (Hst : at_rune (rr e) (caret_start e) a = at_rune b' (caret_start e) a).
  { unfold at_rune. rewrite Hpre. reflexivity. }
  rewrite Hst.
  assert (Hcst : pos_consistent b' (at_rune b' (caret_start e) a)).
  { apply at_rune_consistent. subst newEnd. unfold len_runes in *. lia. }
  assert (Hadj : forall p, pos_consistent (rr e) p ->
    let r := if (newEnd <? runes p) && (runes p <=? bnd) then newEnd
             else if bnd <? runes p then runes p + (newEnd - bnd) else runes p in
    r = remap bnd newEnd (runes p) /\ 0 <= r <= Z.of_nat (length b')).
  { intros p [Hp _] r. subst r. unfold remap. fold n in Hp. unfold len_runes in *.
    subst newEnd.
    destruct (runes p <=? bnd) eqn:E1; destruct (_ <? runes p) eqn:E2; cbn [andb];
      try destruct (bnd <? runes p) eqn:E3; split; lia. }
  cbn [set_rr set_start set_end set_valid set_index invalidate modify snd
       rr caret_start caret_end index valid].
  destruct (Hadj (caret_start e) Hs) as [H1 H2].
  destruct (Hadj (caret_end e) He) as [H3 H4].
  rewrite !seek_spec by exact Hcst.
  change (a + len_runes s') with newEnd.
  rewrite H1, H3.
  split; [reflexivity |].
  split; [unfold clamp; cbn [runes at_rune with_ofs_runes]; lia |].
  split; [unfold clamp; cbn [runes at_rune with_ofs_runes]; lia |].
  split; [apply at_rune_consistent; unfold clamp; lia |].
  split; [apply at_rune_consistent; unfold clamp; lia |].
  split; reflexivity.
Qed.



Lemma single_line_map (s : list Z) :
  bytes_len (map (fun r => if r =? 10 then 32 else r) s) = bytes_len s /\
  len_runes (map (fun r => if r =? 10 then 32 else r) s) = len_runes s.
Proof.
  unfold len_runes. rewrite length_map. split; [| reflexivity].
  induction s as [| r s IH]; [reflexivity |]. cbn [map bytes_len]. rewrite IH.
  destruct (r =? 10) eqn:E; [apply Z.eqb_eq in E; subst; reflexivity | reflexivity].
Qed.

(** [append s] with the caret start not after the selection end (the
    order the selection has after a forward drag or [SetCaret]): the
    selection is replaced by [s] (newlines turned into spaces in
    single-line mode) and both caret ends are left right after the
    inserted text, at a storage offset that agrees with the buffer. *)
Theorem append_after_text (e : Editor) (s : list Z) :
  pos_consistent (rr e) (caret_start e) -> pos_consistent (rr e) (caret_end e) ->
  runes (caret_start e) <= runes (caret_end e) ->
  let st := runes (caret_start e) in
  let en := runes (caret_end e) in
  let s' := if SingleLine e then map (fun r => if r =? 10 then 32 else r) s else s in
  let e' := snd (append s e) in
  rr e' = firstn (Z.to_nat st) (rr e) ++ s' ++ skipn (Z.to_nat en) (rr e) /\
  runes (caret_start e') = st + len_runes s /\ caret_end e' = caret_start e' /\
  caret_xoff e' = 0 /\ pos_consistent (rr e') (caret_start e').
Proof.
  intros Hs He Hle st en s' e'.
  assert (Hs' : bytes_len s' = bytes_len s /\ len_runes s' = len_runes s)
    by (subst s'; destruct (SingleLine e); [apply single_line_map | split; reflexivity]).
  destruct Hs' as [Hb Hl].
  pose proof (replace_spec e st en s Hs He) as H. cbv zeta in H. fold s' in H.
  set (e1 := snd (replace st en s e)) in H.
  destruct H as (H1 & H2 & _ & H4 & _).
  assert (Heq : e' = let c := caret_start e1 in
                     let c := with_ofs_runes c (ofs c + bytes_len s) (runes c + len_runes s) in
                     set_end (set_start (set_xoff e1 0) c) c).
  { subst e' e1. unfold append, bind, get, modify. fold st en.
    destruct (replace st en s e) as [u e2]. reflexivity. }
  destruct Hs as [Hs0 Hso]. destruct He as [He0 Heo]. fold st en in Hs0, He0, Hso. assert (Hle2 : st <= en) by exact Hle.
  assert (Ha : clamp (Z.min st en) 0 (Z.of_nat (length (rr e))) = st) by (unfold clamp; lia).
  assert (Hb' : clamp (Z.max st en) 0 (Z.of_nat (length (rr e))) = en) by (unfold clamp; lia).
  rewrite Ha, Hb' in H1. rewrite Ha, Hb' in H2.
  assert (Hst : runes (caret_start e1) = st).
  { rewrite H2. unfold remap, len_runes. fold st. rewrite (proj2 (Z.leb_le st en)) by lia. lia. }
  rewrite Heq. cbv zeta. cbn [rr caret_start caret_end caret_xoff set_end set_start set_xoff
                            runes with_ofs_runes].
  split; [exact H1 |]. split; [rewrite Hst; reflexivity |].
  split; [reflexivity |]. split; [reflexivity |].
  destruct H4 as [H4a H4b]. rewrite H1 in H4a, H4b |- *.
  rewrite Hst in H4a, H4b |- *.
  assert (Hlen : length (firstn (Z.to_nat st) (rr e)) = Z.to_nat st)
    by (rewrite length_firstn; lia).
  unfold len_runes in *.
  unfold with_ofs_runes. split; cbn [runes ofs].
  - rewrite !length_app, length_firstn, length_skipn. lia.
  - rewrite H4b. replace (Z.to_nat (st + Z.of_nat (length s))) with
      (length (firstn (Z.to_nat st) (rr e) ++ s')) by (rewrite length_app, Hlen; lia).
    set (l1 := firstn (Z.to_nat st) (rr e)) in *.
    set (rest := skipn (Z.to_nat en) (rr e)).
    assert (Hx : firstn (length (l1 ++ s')) (l1 ++ s' ++ rest) = l1 ++ s').
    { rewrite app_assoc, firstn_app, Nat.sub_diag, firstn_O, app_nil_r, firstn_all.
      reflexivity. }
    assert (Hy : firstn (Z.to_nat st) (l1 ++ s' ++ rest) = l1).
    { rewrite firstn_app, Hlen, Nat.sub_diag, firstn_O, app_nil_r.
      subst l1. rewrite firstn_firstn, Nat.min_id. reflexivity. }
    rewrite Hx, Hy, bytes_len_app, Hb. reflexivity.
Qed.

Lemma append_after_text_witness :
  rr (snd (append [33] (plain_editor hello_world (mkPos 5 5 (mkSP 5 0) 0 0)
                          (mkPos 5 5 (mkSP 5 0) 0 0)))) =
    [104;101;108;108;111;33;32;119;111;114;108;100] /\
  runes (caret_start (snd (append [33] (plain_editor hello_world (mkPos 5 5 (mkSP 5 0) 0 0)
                                          (mkPos 5 5 (mkSP 5 0) 0 0))))) = 6.
Proof.
  destruct (append_after_text (plain_editor hello_world (mkPos 5 5 (mkSP 5 0) 0 0)
                                 (mkPos 5 5 (mkSP 5 0) 0 0)) [33]) as (H1 & H2 & _).
  - split; [cbn; lia | reflexivity].
  - split; [cbn; lia | reflexivity].
  - cbn; lia.
  - cbv zeta in H1, H2. rewrite H1, H2. split; vm_compute; reflexivity.
Defined.

(** [SetText s] replaces the whole buffer by [s] (newlines turned into
    spaces in single-line mode): afterwards [Text] gives the encoding of
    [s], both caret ends are at rune offset 0 with a consistent storage
    offset, the horizontal anchor is reset and the layout is invalid. *)
Theorem SetText_spec (e : Editor) (s : list Z) :
  let s' := if SingleLine e then map (fun r => if r =? 10 then 32 else r) s else s in
  let e' := snd (SetText s e) in
  rr e' = s' /\ Text e' = encode_string s' /\
  runes (caret_start e') = 0 /\ runes (caret_end e') = 0 /\
  pos_consistent (rr e') (caret_start e') /\ pos_consistent (rr e') (caret_end e') /\
  caret_xoff e' = 0 /\ valid e' = false.
Proof.
  intros s' e'.
  set (e0 := set_end (set_start (set_rr e []) zeroPos) zeroPos).
  assert (Heq : e' = set_xoff (snd (replace 0 0 s e0)) 0).
  { subst e'. unfold SetText, bind, get, modify. reflexivity. }
  assert (Hz : pos_consistent (rr e0) zeroPos) by (split; cbn; lia).
  pose proof (replace_spec e0 0 0 s Hz Hz) as H. cbv zeta in H.
  change (SingleLine e0) with (SingleLine e) in H. fold s' in H.
  change (rr e0) with (@nil Z) in H. cbn [length Z.of_nat] in H.
  change (clamp (Z.min 0 0) 0 0) with 0 in H. change (clamp (Z.max 0 0) 0 0) with 0 in H.
  cbn [Z.to_nat firstn skipn app] in H.
  destruct H as (H1 & H2 & H3 & H4 & H5 & _ & H7).
  rewrite app_nil_r in H1.
  change (runes (caret_start e0)) with 0 in H2.
  change (runes (caret_end e0)) with 0 in H3.
  unfold remap in H2, H3. rewrite Z.leb_refl in H2, H3.
  assert (Hl : 0 <= len_runes s') by (unfold len_runes; lia).
  rewrite Heq. unfold Text. cbn [rr caret_start caret_end caret_xoff valid set_xoff].
  rewrite H1 in H4, H5 |- *.
  split; [reflexivity |]. split; [reflexivity |].
  split; [rewrite H2; lia |]. split; [rewrite H3; lia |].
  split; [exact H4 |]. split; [exact H5 |]. split; [reflexivity | exact H7].
Qed.

(* ------------------------------------------------------------------ *)
(** ** The selected text *)

Lemma firstn_add_split (b : list Z) :
  forall i k, firstn (i + k) b = firstn i b ++ firstn k (skipn i b).
Proof.
  induction b as [| r b IH]; intros i k.
  - rewrite !firstn_nil, skipn_nil, firstn_nil. reflexivity.
  - destruct i as [| i]; [reflexivity |].
    cbn [Nat.add firstn skipn app]. rewrite IH. reflexivity.
Qed.

Lemma bytes_len_nonneg (l : list Z) : 0 <= bytes_len l.
Proof. pose proof (bytes_len_ge_length l). lia. Qed.

Lemma bytes_len_firstn_mono (b : list Z) (i j : nat) :
  (i <= j)%nat -> bytes_len (firstn i b) <= bytes_len (firstn j b).
Proof.
  intros H. replace j with (i + (j - i))%nat by lia.
  rewrite firstn_add_split, bytes_len_app.
  pose proof (bytes_len_nonneg (firstn (j - i) (skipn i b))). lia.
Qed.

Lemma encode_string_app (l1 l2 : list Z) :
  encode_string (l1 ++ l2) = encode_string l1 ++ encode_string l2.
Proof. unfold encode_string. apply flat_map_app. Qed.

Lemma skipn_length_app (l1 l2 : list Z) : skipn (length l1) (l1 ++ l2) = l2.
Proof. induction l1 as [| r l1 IH]; [reflexivity | exact IH]. Qed.

Lemma firstn_length_app (l1 l2 : list Z) : firstn (length l1) (l1 ++ l2) = l1.
Proof. induction l1 as [| r l1 IH]; [reflexivity | cbn; rewrite IH; reflexivity]. Qed.

Lemma bytes_len_to_nat (l : list Z) : Z.to_nat (bytes_len l) = length (encode_string l).
Proof. rewrite <- encode_string_length. apply Nat2Z.id. Qed.

(** The bytes between the storage offsets of rune offsets [i] and
    [i + k] encode the runes between them. *)
Lemma encode_sub (b : list Z) (i k : nat) :
  firstn (Z.to_nat (bytes_len (firstn (i + k) b) - bytes_len (firstn i b)))
    (skipn (Z.to_nat (bytes_len (firstn i b))) (encode_string b)) =
  encode_string (firstn k (skipn i b)).
Proof.
  rewrite firstn_add_split, bytes_len_app, Z.add_simpl_l.
  assert (Hb : encode_string b = encode_string (firstn i b) ++
                 encode_string (firstn k (skipn i b)) ++ encode_string (skipn k (skipn i b))).
  { rewrite <- !encode_string_app, !firstn_skipn. reflexivity. }
  rewrite Hb, !bytes_len_to_nat, skipn_length_app, firstn_length_app. reflexivity.
Qed.

Lemma min_Z (a b : Z) : min a b = Z.min a b.
Proof. unfold min. destruct (a <? b) eqn:E; zbool; lia. Qed.

Lemma max_Z (a b : Z) : max a b = Z.max a b.
Proof. unfold max. destruct (a >? b) eqn:E; zbool; lia. Qed.

Lemma abs_Z (a : Z) : abs a = Z.abs a.
Proof. unfold abs. destruct (a <? 0) eqn:E; zbool; lia. Qed.

Lemma ofs_min_max (b : list Z) (x y : Z) :
  0 <= x -> 0 <= y ->
  Z.min (bytes_len (firstn (Z.to_nat x) b)) (bytes_len (firstn (Z.to_nat y) b)) =
    bytes_len (firstn (Z.to_nat (Z.min x y)) b) /\
  Z.max (bytes_len (firstn (Z.to_nat x) b)) (bytes_len (firstn (Z.to_nat y) b)) =
    bytes_len (firstn (Z.to_nat (Z.max x y)) b).
Proof.
  intros Hx Hy. destruct (Z.le_ge_cases x y) as [H | H].
  - pose proof (bytes_len_firstn_mono b (Z.to_nat x) (Z.to_nat y) ltac:(lia)).
    rewrite Z.min_l, Z.max_r, (Z.min_l x y), (Z.max_r x y) by lia. split; reflexivity.
  - pose proof (bytes_len_firstn_mono b (Z.to_nat y) (Z.to_nat x) ltac:(lia)).
    rewrite Z.min_r, Z.max_l, (Z.min_r x y), (Z.max_l x y) by lia. split; reflexivity.
Qed.

(** [SelectedText] and [SelectionLen] agree: with both caret ends at
    storage offsets consistent with the buffer, the selected bytes are the
    encoding of the runes between the two ends, and decoding them gives
    [SelectionLen] runes, as [SelectionLen]'s doc comment says. *)
Theorem SelectedText_SelectionLen (e : Editor) :
  pos_consistent (rr e) (caret_start e) -> pos_consistent (rr e) (caret_end e) ->
  let a := Z.min (runes (caret_start e)) (runes (caret_end e)) in
  let b := Z.max (runes (caret_start e)) (runes (caret_end e)) in
  SelectedText e = encode_string (firstn (Z.to_nat (b - a)) (skipn (Z.to_nat a) (rr e))) /\
  Z.of_nat (length (decode_all (length (SelectedText e)) (SelectedText e))) = SelectionLen e.
Proof.
  intros [Hs0 Hso] [He0 Heo] a b.
  assert (Hsel : SelectedText e =
                 encode_string (firstn (Z.to_nat (b - a)) (skipn (Z.to_nat a) (rr e)))).
  { unfold SelectedText. rewrite min_Z, max_Z, Hso, Heo.
    destruct (ofs_min_max (rr e) _ _ (proj1 Hs0) (proj1 He0)) as [Hmin Hmax].
    rewrite Hmin, Hmax. fold a b.
    replace (Z.to_nat b) with (Z.to_nat a + Z.to_nat (b - a))%nat by (subst a b; lia).
    apply encode_sub. }
  split; [exact Hsel |].
  rewrite Hsel, decode_all_encode, length_map.
  - unfold SelectionLen. rewrite abs_Z. rewrite length_firstn, length_skipn.
    subst a b. lia.
  - set (l := firstn _ _). pose proof (encode_string_length l).
    pose proof (bytes_len_ge_length l). lia.
Qed.

Lemma SelectedText_SelectionLen_witness :
  SelectedText (plain_editor hello_world (mkPos 7 7 (mkSP 7 0) 0 0) (mkPos 2 2 (mkSP 2 0) 0 0)) =
    encode_string [108;108;111;32;119] /\
  SelectionLen (plain_editor hello_world (mkPos 7 7 (mkSP 7 0) 0 0) (mkPos 2 2 (mkSP 2 0) 0 0)) = 5.
Proof.
  destruct (SelectedText_SelectionLen
              (plain_editor hello_world (mkPos 7 7 (mkSP 7 0) 0 0) (mkPos 2 2 (mkSP 2 0) 0 0)))
    as [H1 _].
  - split; [cbn; lia | reflexivity].
  - split; [cbn; lia | reflexivity].
  - rewrite H1. split; vm_compute; reflexivity.
Defined.

(* ------------------------------------------------------------------ *)
(** ** Reading through the mask filter *)

(** One [maskReader.Read] into a buffer of [blen >= 0] bytes delivers a
    prefix of the bytes the reader still has to deliver (the mask for
    every rune, a newline for every newline) and keeps the rest; it fills
    the whole buffer unless it reports [io.EOF], and it reports [io.EOF]
    only when nothing is left. *)
Theorem maskReader_Read_prefix (m : maskReader) (blen : Z) :
  mr_mask m <> [] -> 0 <= blen ->
  let '(out, err, m') := maskReader_Read m blen in
  out ++ mask_stream m' = mask_stream m /\ mr_mask m' = mr_mask m /\
  (err = false -> Z.of_nat (length out) = blen) /\
  (err = true -> mask_stream m' = []).
Proof.
  intros Hm Hb. unfold maskReader_Read.
  pose proof (mask_read_loop_spec (Z.to_nat blen) blen m Hm ltac:(lia)) as H.
  destruct (mask_read_loop _ _ _) as [[out err] m'].
  destruct H as (H1 & H2 & H3 & H4).
  split; [exact H1 | split; [exact H2 | split; [| exact H3]]].
  intros He. rewrite (H4 He). lia.
Qed.

Lemma maskReader_Read_prefix_witness :
  let '(out, err, m') := maskReader_Read (maskReader_Reset [97; 10; 98] 8226) 4 in
  out ++ mask_stream m' = mask_stream (maskReader_Reset [97; 10; 98] 8226) /\
  out = [226; 128; 162; 10] /\ err = false.
Proof.
  pose proof (maskReader_Read_prefix (maskReader_Reset [97; 10; 98] 8226) 4
                ltac:(vm_compute; discriminate) ltac:(lia)) as H.
  destruct (maskReader_Read _ _) as [[out err] m'] eqn:E.
  destruct H as [H1 _]. split; [exact H1 |].
  vm_compute in E. injection E as <- <- _. split; reflexivity.
Defined.

(** A consumer that reads the mask reader of a freshly reset buffer to
    [io.EOF], with any buffer size [k >= 1] and enough [Read] calls,
    receives the UTF-8 encoding of the mask rune for every rune of the
    buffer and a newline byte for every newline. *)
Theorem read_all_masked (b : editBuffer) (mr k : Z) (fuel : nat) :
  0 < k -> (4 * length b < fuel)%nat ->
  read_all fuel k (maskReader_Reset b mr) =
    flat_map (fun r => if r =? 10 then [10] else encode_rune mr) b.
Proof.
  intros Hk Hf.
  assert (Hm : encode_rune mr <> []).
  { pose proof (encode_rune_length mr). destruct (encode_rune mr); [cbn in *; lia | discriminate]. }
  rewrite read_all_stream; [reflexivity | exact Hk | exact Hm |].
  unfold mask_stream, maskReader_Reset. cbn [mr_overflow mr_rr mr_mask app].
  pose proof (flat_map_length_le (repl (encode_rune mr)) b 4) as H.
  assert (Hr : forall r, (length (repl (encode_rune mr) r) <= 4)%nat).
  { intros r. unfold repl. destruct (r =? 10); [cbn; lia | apply encode_rune_length]. }
  specialize (H Hr). nia.
Qed.

Lemma read_all_masked_witness :
  read_all 20 1 (maskReader_Reset [97; 10; 98] 8226) =
    [226; 128; 162; 10; 226; 128; 162].
Proof.
  rewrite (read_all_masked [97; 10; 98] 8226 1 20 ltac:(lia) ltac:(cbn; lia)).
  vm_compute. reflexivity.
Defined.

(* ------------------------------------------------------------------ *)
(** ** Moving to the start and the end of a line *)

Lemma back_cols_spec (b : editBuffer) (l : Line) :
  forall i pos, pos_consistent b pos -> Z.of_nat i <= runes pos ->
  runes (back_cols i b l pos) = runes pos - Z.of_nat i /\
  pos_consistent b (back_cols i b l pos).
Proof.
  induction i as [| i IH]; intros pos Hc Hi.
  - cbn [back_cols]. split; [lia | exact Hc].
  - cbn [back_cols]. destruct Hc as [Hk Ho].
    set (j := Z.to_nat (runes pos - 1)).
    assert (Hj : Z.to_nat (runes pos) = S j) by (subst j; lia).
    assert (Hs : snd (runeBefore b (ofs pos)) = rune_len (nth j b 0)).
    { rewrite Ho, Hj. unfold runeBefore. rewrite runeBefore_aux_firstn by lia.
      replace (S j - 1)%nat with j by lia. reflexivity. }
    assert (Hb : ofs pos - snd (runeBefore b (ofs pos)) = bytes_len (firstn j b)).
    { rewrite Hs, Ho, Hj, bytes_firstn_S by lia. lia. }
    rewrite Hb.
    destruct (IH (mkPos (bytes_len (firstn j b)) (runes pos - 1) (lineCol pos)
                    (x pos - adv_at l (Z.of_nat i)) (y pos))) as [H1 H2].
    + split; cbn [runes ofs]; [lia | reflexivity].
    + cbn [runes]. lia.
    + split; [rewrite H1; cbn [runes]; lia | exact H2].
Qed.

(** [moveStart(selectionClear)] on a laid-out editor whose caret start is
    a position of the layout consistent with the buffer: the caret moves
    to column 0 of its line, at the rune offset where that line starts
    and a storage offset consistent with the buffer; the selection is
    cleared, the horizontal anchor is minus the caret's x, and the buffer
    and the layout are unchanged. *)
Theorem moveStart_line_start (e : Editor) :
  valid e = true -> good_pos e (caret_start e) ->
  let p := caret_start e in
  let e' := snd (moveStart selectionClear e) in
  X (lineCol (caret_start e')) = 0 /\ Y (lineCol (caret_start e')) = Y (lineCol p) /\
  runes (caret_start e') = prefix_cols (lines e) (Y (lineCol p)) /\
  pos_consistent (rr e') (caret_start e') /\
  caret_xoff e' = - x (caret_start e') /\ caret_end e' = caret_start e' /\
  rr e' = rr e /\ lines e' = lines e.
Proof.
  intros Hv [(HY & HX & Hr) Hc]. cbv zeta.
  set (p := caret_start e) in *. set (e' := snd (moveStart selectionClear e)).
  set (q := back_cols (Z.to_nat (X (lineCol p))) (rr e) (nth_line e (Y (lineCol p))) p).
  assert (HYq : Y (lineCol q) = Y (lineCol p)).
  { subst q. generalize (nth_line e (Y (lineCol p))) (Z.to_nat (X (lineCol p))). intros l i.
    generalize p. induction i as [| i IH]; intros p0; [reflexivity |].
    cbn [back_cols]. rewrite IH. reflexivity. }
  assert (Heq : e' = let p' := mkPos (ofs q) (runes q) (mkSP 0 (Y (lineCol q))) (x q) (y q) in
                     set_end (set_xoff (set_start e p') (- x p')) p').
  { subst e' q p. unfold moveStart, movePosToStart, bind, get, modify, ret,
      updateSelection, ClearSelection.
    cbv beta iota zeta. rewrite makeValid_id by exact Hv. reflexivity. }
  pose proof (total_cols_nonneg (firstn (Z.to_nat (Y (lineCol p))) (lines e))) as Hn.
  fold (prefix_cols (lines e) (Y (lineCol p))) in Hn.
  destruct (back_cols_spec (rr e) (nth_line e (Y (lineCol p))) (Z.to_nat (X (lineCol p))) p Hc)
    as [H1 H2]; [lia |].
  fold q in H1, H2.
  rewrite Heq. cbv zeta. cbn [caret_start caret_end caret_xoff rr lines set_end set_xoff
                              set_start lineCol X Y x].
  split; [reflexivity |]. split; [exact HYq |].
  split; [cbn [runes]; rewrite H1; lia |].
  split; [destruct H2 as [H2a H2b]; split; cbn [runes ofs]; assumption |].
  repeat split.
Qed.

Lemma moveStart_line_start_witness :
  caret_start (snd (moveStart selectionClear
    (plain_editor hello_world (mkPos 5 5 (mkSP 5 0) 0 0) (mkPos 5 5 (mkSP 5 0) 0 0)))) =
    mkPos 0 0 (mkSP 0 0) 0 0.
Proof.
  destruct (moveStart_line_start
              (plain_editor hello_world (mkPos 5 5 (mkSP 5 0) 0 0) (mkPos 5 5 (mkSP 5 0) 0 0)))
    as (_ & _ & H3 & _).
  - reflexivity.
  - assert (Hn : nlines (plain_editor hello_world (mkPos 5 5 (mkSP 5 0) 0 0)
                           (mkPos 5 5 (mkSP 5 0) 0 0)) = 1) by (vm_compute; reflexivity).
    assert (Ha : alen (nth_line (plain_editor hello_world (mkPos 5 5 (mkSP 5 0) 0 0)
                                   (mkPos 5 5 (mkSP 5 0) 0 0)) 0) = 11)
      by (vm_compute; reflexivity).
    set (E := plain_editor hello_world (mkPos 5 5 (mkSP 5 0) 0 0) (mkPos 5 5 (mkSP 5 0) 0 0))
      in Hn, Ha |- *.
    unfold good_pos, scan_pos. change (caret_start E) with (mkPos 5 5 (mkSP 5 0) 0 0).
    cbn [lineCol X Y runes]. rewrite Hn, Ha.
    split; [split; [lia | split; [lia | reflexivity]] | split; [cbn; lia | reflexivity]].
  - vm_compute. reflexivity.
Defined.

Lemma fwd_cols_spec (b : editBuffer) (l : Line) :
  forall n i pos, pos_consistent b pos -> runes pos + Z.of_nat n <= Z.of_nat (length b) ->
  let q := fwd_cols n i b l pos in
  runes q = runes pos + Z.of_nat n /\ pos_consistent b q /\
  X (lineCol q) = X (lineCol pos) + Z.of_nat n /\ Y (lineCol q) = Y (lineCol pos).
Proof.
  induction n as [| n IH]; intros i pos Hc Hn q; subst q.
  - cbn [fwd_cols]. split; [lia | split; [exact Hc | split; [lia | reflexivity]]].
  - cbn [fwd_cols]. destruct Hc as [Hk Ho].
    set (j := Z.to_nat (runes pos)).
    assert (Hs : snd (runeAt b (ofs pos)) = rune_len (nth j b 0)).
    { rewrite Ho. apply runeAt_firstn. subst j. lia. }
    assert (Hb : ofs pos + snd (runeAt b (ofs pos)) = bytes_len (firstn (S j) b)).
    { rewrite Hs, Ho, bytes_firstn_S by (subst j; lia). reflexivity. }
    rewrite Hb.
    destruct (IH (i + 1) (mkPos (bytes_len (firstn (S j) b)) (runes pos + 1)
                   (mkSP (X (lineCol pos) + 1) (Y (lineCol pos)))
                   (x pos + adv_at l i) (y pos))) as (H1 & H2 & H3 & H4).
    + split; cbn [runes ofs]; [lia |]. subst j. f_equal. f_equal. lia.
    + cbn [runes]. lia.
    + cbn [runes lineCol X Y] in H1, H3, H4.
      split; [lia | split; [exact H2 | split; [lia | exact H4]]].
Qed.

(** [moveEnd(selectionClear)] on a laid-out editor with a consistent
    layout and its caret start at a position of the layout: the caret
    moves to the last column of its line, before the newline on every
    line but the last (it stays where it is when already past that
    column); it lands at the rune offset of that column with a storage
    offset consistent with the buffer, the selection is cleared and the
    horizontal anchor is the distance from the caret to the line's right
    edge. *)
Theorem moveEnd_line_end (e : Editor) :
  valid e = true -> layout_ok e -> good_pos e (caret_start e) ->
  let p := caret_start e in
  let l := nth_line e (Y (lineCol p)) in
  let end_ := if Y (lineCol p) <? nlines e - 1 then 1 else 0 in
  let e' := snd (moveEnd selectionClear e) in
  X (lineCol (caret_start e')) = Z.max (X (lineCol p)) (alen l - end_) /\
  Y (lineCol (caret_start e')) = Y (lineCol p) /\
  runes (caret_start e') = prefix_cols (lines e) (Y (lineCol p)) + X (lineCol (caret_start e')) /\
  pos_consistent (rr e') (caret_start e') /\
  caret_xoff e' = Width l + align (EAlignment e) (Width l) (viewW e) - x (caret_start e') /\
  caret_end e' = caret_start e' /\ rr e' = rr e /\ lines e' = lines e.
Proof.
  intros Hv (_ & Htot & _) [(HY & HX & Hr) Hc]. cbv zeta.
  set (p := caret_start e) in *. set (e' := snd (moveEnd selectionClear e)).
  set (l := nth_line e (Y (lineCol p))) in *.
  set (end_ := if Y (lineCol p) <? nlines e - 1 then 1 else 0).
  set (n := Z.to_nat (alen l - end_ - X (lineCol p))).
  set (q := fwd_cols n (X (lineCol p)) (rr e) l p).
  assert (Heq : e' = set_end (set_xoff (set_start e q)
                       (Width l + align (EAlignment e) (Width l) (viewW e) - x q)) q).
  { subst e' q n end_ l p. unfold moveEnd, movePosToEnd, bind, get, modify, ret,
      updateSelection, ClearSelection.
    cbv beta iota zeta. rewrite makeValid_id by exact Hv. reflexivity. }
  assert (Hsplit := total_cols_split (lines e) (Z.to_nat (Y (lineCol p)))).
  unfold nlines in HY. specialize (Hsplit ltac:(lia)).
  pose proof (total_cols_nonneg (skipn (S (Z.to_nat (Y (lineCol p)))) (lines e))).
  fold (prefix_cols (lines e) (Y (lineCol p))) in Hsplit.
  change (nth (Z.to_nat (Y (lineCol p))) (lines e) emptyLine) with l in Hsplit.
  assert (He : 0 <= end_) by (subst end_; destruct (_ <? _); lia).
  destruct (fwd_cols_spec (rr e) l n (X (lineCol p)) p Hc) as (H1 & H2 & H3 & H4);
    [subst n; lia |].
  fold q in H1, H2, H3, H4.
  rewrite Heq. cbn [caret_start caret_end caret_xoff rr lines set_end set_xoff set_start].
  split; [rewrite H3; subst n; lia |]. split; [exact H4 |].
  split; [rewrite H1, H3, Hr; lia |]. split; [exact H2 |].
  repeat split.
Qed.

Lemma moveEnd_line_end_witness :
  runes (caret_start (snd (moveEnd selectionClear
    (plain_editor hello_world (mkPos 2 2 (mkSP 2 0) 0 0) (mkPos 2 2 (mkSP 2 0) 0 0))))) = 11.
Proof.
  set (E := plain_editor hello_world (mkPos 2 2 (mkSP 2 0) 0 0) (mkPos 2 2 (mkSP 2 0) 0 0)).
  assert (Hn : nlines E = 1) by (vm_compute; reflexivity).
  assert (Ha : alen (nth_line E 0) = 11) by (vm_compute; reflexivity).
  destruct (moveEnd_line_end E) as (H1 & _ & H3 & _).
  - reflexivity.
  - split; [discriminate | split; [vm_compute; reflexivity | split; [constructor | exact I]]].
  - unfold good_pos, scan_pos. change (caret_start E) with (mkPos 2 2 (mkSP 2 0) 0 0).
    cbn [lineCol X Y runes]. rewrite Hn, Ha.
    split; [split; [lia | split; [lia | reflexivity]] | split; [cbn; lia | reflexivity]].
  - rewrite H3, H1. vm_compute. reflexivity.
Defined.

(* ------------------------------------------------------------------ *)
(** ** Scrolling *)

Lemma scrollAbs_eq (e : Editor) (dims : point) (viewY px py : Z) :
  let b := scrollBounds e dims viewY in
  scrollAbs e dims viewY px py =
    mkPt (Z.max (ptX (rMin b)) (Z.min px (ptX (rMax b))))
         (Z.max (ptY (rMin b)) (Z.min py (ptY (rMax b)))).
Proof.
  intros b. unfold scrollAbs. fold b.
  f_equal; split_ifs; lia.
Qed.

Lemma scrollAbs_multiline_eq (e : Editor) (dims : point) (viewY px py : Z) :
  SingleLine e = false ->
  scrollAbs e dims viewY px py = mkPt 0 (Z.max 0 (Z.min py (ptY dims - viewY))).
Proof.
  intros Hs. unfold scrollAbs, scrollBounds. rewrite Hs. cbn [rMin rMax ptX ptY].
  f_equal; split_ifs; lia.
Qed.


(** In multi-line mode the horizontal offset is pinned to 0 and the
    vertical offset is clamped between 0 and [dims.Y - viewSize.Y]
    (to 0 when the content is shorter than the view). *)
Theorem scrollAbs_multiline (e : Editor) (dims : point) (viewY px py : Z) :
  SingleLine e = false ->
  scrollAbs e dims viewY px py = mkPt 0 (Z.max 0 (Z.min py (ptY dims - viewY))).
Proof. apply scrollAbs_multiline_eq. Qed.

Lemma scrollAbs_multiline_witness :
  scrollAbs masked_editor (mkPt 0 100) 40 7 90 = mkPt 0 60.
Proof.
  rewrite (scrollAbs_multiline masked_editor (mkPt 0 100) 40 7 90 eq_refl).
  reflexivity.
Defined.

(** The one-axis step of [scrollToCaret]: the offset [s] moved by the
    distance the caret span [[mn, mx]] lies outside the view [[s, s+v]],
    then clamped to [[lo, hi]], shows the whole span when the span fits
    in the view and lies within the scrollable extent [[lo, hi + v]]. *)
Lemma scroll_axis (lo hi s v mn mx : Z) :
  lo <= mn -> mx <= hi + v -> mx - mn <= v ->
  let d := if mn - s <? 0 then mn - s
           else if mx - (s + v) >? 0 then mx - (s + v) else 0 in
  let t := Z.max lo (Z.min (s + d) hi) in
  t <= mn /\ mx <= t + v.
Proof. intros H1 H2 H3 d t. subst t d. split_ifs; lia. Qed.

(** [scrollToCaret] in multi-line mode on a laid-out editor: when the
    caret's line span (from [y - ceil(Ascent)] to [y + ceil(Descent)])
    fits in the view and lies within the content, the new vertical
    offset shows all of it. *)
Theorem scrollToCaret_multiline_visible (e : Editor) (dims so : point) (viewY : Z) :
  valid e = true -> SingleLine e = false ->
  let cs := caret_start e in
  let l := nth_line e (Y (lineCol cs)) in
  let miny := y cs - Ceil (Ascent l) in
  let maxy := y cs + Ceil (Descent l) in
  0 <= miny -> maxy <= ptY dims -> maxy - miny <= viewY ->
  let so' := fst (scrollToCaret dims viewY so e) in
  ptX so' = 0 /\ ptY so' <= miny /\ maxy <= ptY so' + viewY.
Proof.
  intros Hv Hs cs l miny maxy H1 H2 H3 so'.
  assert (Heq : so' = scrollRel e dims viewY so 0
                  (if miny - ptY so <? 0 then miny - ptY so
                   else if maxy - (ptY so + viewY) >? 0 then maxy - (ptY so + viewY) else 0)).
  { subst so' miny maxy l cs. unfold scrollToCaret, bind, get, ret.
    cbv beta iota zeta. rewrite makeValid_id by exact Hv. cbv beta iota zeta.
    rewrite Hs. reflexivity. }
  rewrite Heq. unfold scrollRel. rewrite (scrollAbs_multiline_eq e dims viewY _ _ Hs).
  cbn [ptX ptY]. split; [reflexivity |].
  apply (scroll_axis 0 (ptY dims - viewY) (ptY so) viewY miny maxy); lia.
Qed.

Lemma scrollToCaret_multiline_visible_witness :
  fst (scrollToCaret (mkPt 0 100) 20 (mkPt 0 0) ab_cdef_editor) = mkPt 0 0 /\
  fst (scrollToCaret (mkPt 0 100) 20 (mkPt 0 50) ab_cdef_editor) = mkPt 0 0.
Proof.
  pose proof (scrollToCaret_multiline_visible ab_cdef_editor (mkPt 0 100) (mkPt 0 50) 20
                eq_refl eq_refl) as H.
  cbv zeta in H. vm_compute in H.
  destruct (H ltac:(discriminate) ltac:(discriminate) ltac:(discriminate)) as (_ & _ & _).
  split; vm_compute; reflexivity.
Defined.

(** [scrollToCaret] in single-line mode on a laid-out editor: when the
    caret's horizontal span (from [floor(x)] to [ceil(x)]) fits in the
    view and lies within the scrollable extent, the new horizontal offset
    shows it, and the vertical offset is 0. *)
Theorem scrollToCaret_singleline_visible (e : Editor) (dims so : point) (viewY : Z) :
  valid e = true -> SingleLine e = true ->
  let cs := caret_start e in
  let b := scrollBounds e dims viewY in
  ptX (rMin b) <= Floor (x cs) -> Ceil (x cs) <= ptX (rMax b) + viewW e ->
  Ceil (x cs) - Floor (x cs) <= viewW e ->
  let so' := fst (scrollToCaret dims viewY so e) in
  ptY so' = 0 /\ ptX so' <= Floor (x cs) /\ Ceil (x cs) <= ptX so' + viewW e.
Proof.
  intros Hv Hs cs b H1 H2 H3 so'.
  assert (Heq : so' = scrollRel e dims viewY so
                  (if Floor (x cs) - ptX so <? 0 then Floor (x cs) - ptX so
                   else if Ceil (x cs) - (ptX so + viewW e) >? 0
                        then Ceil (x cs) - (ptX so + viewW e) else 0) 0).
  { subst so' cs. unfold scrollToCaret, bind, get, ret.
    cbv beta iota zeta. rewrite makeValid_id by exact Hv. cbv beta iota zeta.
    rewrite Hs. reflexivity. }
  rewrite Heq. unfold scrollRel. rewrite scrollAbs_eq. fold b.
  assert (Hy : ptY (rMin b) = 0 /\ ptY (rMax b) = 0)
    by (subst b; unfold scrollBounds; rewrite Hs; split; reflexivity).
  cbn [ptX ptY]. split; [lia |].
  apply (scroll_axis (ptX (rMin b)) (ptX (rMax b)) (ptX so) (viewW e)); lia.
Qed.

Lemma scrollToCaret_singleline_visible_witness :
  fst (scrollToCaret (mkPt 1000 0) 20 (mkPt 0 0)
         (mkEditor Start true 0 hello_world None 100 true [mkLine [] (repeat 64 11) 0 0 1000] []
            (mkPos 0 0 (mkSP 0 0) 6400 0) (mkPos 0 0 (mkSP 0 0) 6400 0) 0)) = mkPt 0 0.
Proof.
  pose proof (scrollToCaret_singleline_visible
    (mkEditor Start true 0 hello_world None 100 true [mkLine [] (repeat 64 11) 0 0 1000] []
       (mkPos 0 0 (mkSP 0 0) 6400 0) (mkPos 0 0 (mkSP 0 0) 6400 0) 0)
    (mkPt 1000 0) (mkPt 0 0) 20 eq_refl eq_refl) as H.
  cbv zeta in H. vm_compute in H.
  destruct (H ltac:(discriminate) ltac:(discriminate) ltac:(discriminate)) as (_ & _ & _).
  vm_compute. reflexivity.
Defined.

(* ------------------------------------------------------------------ *)
(** ** Positions *)

(** [closestPosition] on a consistent layout resolves any target to a
    position of the layout that agrees with the buffer, and only touches
    the position index, which it leaves holding such positions: the
    layout stays consistent and the buffer, lines and caret are kept. *)
Theorem closestPosition_index_invariant (pos : combinedPos) (e : Editor) :
  layout_ok e ->
  let '(c, e') := closestPosition pos e in
  good_pos e c /\ layout_ok e' /\ lines e' = lines e /\ rr e' = rr e /\
  caret_start e' = caret_start e /\ caret_end e' = caret_end e /\ valid e' = valid e.
Proof.
  intros Hok. pose proof (closestPosition_good pos e Hok) as H.
  destruct (closestPosition pos e) as [c e'].
  destruct H as (H1 & H2 & idx & ->).
  split; [exact H1 | split; [exact H2 |]]. repeat split.
Qed.

Lemma closestPosition_index_invariant_witness :
  let '(c, e') := closestPosition (rune_target 3)
                    (plain_editor hello_world zeroPos zeroPos) in
  good_pos (plain_editor hello_world zeroPos zeroPos) c /\ layout_ok e' /\ runes c = 3.
Proof.
  pose proof (closestPosition_index_invariant (rune_target 3)
                (plain_editor hello_world zeroPos zeroPos)) as H.
  assert (Hok : layout_ok (plain_editor hello_world zeroPos zeroPos)).
  { split; [discriminate | split; [vm_compute; reflexivity | split; [constructor | exact I]]]. }
  specialize (H Hok).
  assert (Hr : runes (fst (closestPosition (rune_target 3)
                            (plain_editor hello_world zeroPos zeroPos))) = 3)
    by (vm_compute; reflexivity).
  destruct (closestPosition _ _) as [c e'].
  destruct H as (H1 & H2 & _). split; [exact H1 | split; [exact H2 | exact Hr]].
Defined.

(** [seek] from a hint that agrees with the buffer lands on the
    requested rune offset clamped to the buffer, with the storage offset
    of that rune; the rest of the hint is carried over unchanged. *)
Theorem seek_clamp (b : editBuffer) (hint : combinedPos) (r : Z) :
  pos_consistent b hint ->
  let p := seek b hint r in
  runes p = clamp r 0 (Z.of_nat (length b)) /\ pos_consistent b p /\
  lineCol p = lineCol hint /\ x p = x hint /\ y p = y hint.
Proof.
  intros Hc p. subst p. rewrite (seek_spec b hint r Hc).
  split; [reflexivity |].
  split; [apply at_rune_consistent; unfold clamp; lia |].
  repeat split.
Qed.

Lemma seek_clamp_witness :
  seek hello_world (mkPos 5 5 (mkSP 5 0) 0 0) 20 = mkPos 11 11 (mkSP 5 0) 0 0.
Proof.
  destruct (seek_clamp hello_world (mkPos 5 5 (mkSP 5 0) 0 0) 20) as (H1 & H2 & H3 & H4 & H5).
  - split; [cbn; lia | reflexivity].
  - vm_compute. reflexivity.
Defined.

(** [Text] is the UTF-8 encoding of the buffer: decoding it gives the
    buffer's code points back, each invalid one (a surrogate or a value
    out of range) as [utf8.RuneError]. *)
Theorem Text_decodes (e : Editor) :
  decode_all (length (Text e)) (Text e) = map valid_rune (rr e).
Proof.
  unfold Text. apply decode_all_encode.
  pose proof (encode_string_length (rr e)). pose proof (bytes_len_ge_length (rr e)). lia.
Qed.
